(** * cellranger.io: the HDF5 string codec, the JSON merger and the copy helpers

    A shallow embedding of [lib/python/cellranger/io.py] (Python 2).
    Byte strings ([str]) are lists of 8-bit characters, text ([unicode]) is a
    list of code points, dictionaries are finite maps, and a function that
    can raise returns a [result]. *)

From Stdlib Require Import ZArith NArith String Ascii List Lia.
From Stdlib Require Import DecimalString HexadecimalString DecimalN DecimalZ HexadecimalN.
From stdpp Require Import gmap strings list fin_maps.

Set Warnings "-register-all".
Local Open Scope N_scope.

(** ** Byte strings and text *)

(** A [str] literal. *)
Definition b (s : string) : list ascii := list_ascii_of_string s.

(** A [unicode] literal (of ASCII characters). *)
Definition u (s : string) : list N := N_of_ascii <$> list_ascii_of_string s.

(** The characters of a text whose code points are all below 256. *)
Definition to_string (s : list N) : string := string_of_list_ascii (ascii_of_N <$> s).

(** ['%d' % n] for a non-negative [n]. *)
Definition decimal (n : N) : list ascii :=
  list_ascii_of_string (DecimalString.NilZero.string_of_uint (N.to_uint n)).

Definition NUL : ascii := "000"%char.

(** ** Python objects *)

(** The objects the codec is handed.  [PyInt] and [PyTuple] stand for the
    types that are neither [None], nor strings, nor lists. *)
Inductive pyobj :=
  | PyNone
  | PyStr (s : list ascii)
  | PyUnicode (s : list N)
  | PyInt (n : Z)
  | PyList (l : list pyobj)
  | PyTuple (l : list pyobj).

Inductive pytype :=
  | TNoneType | TBool | TInt | TLong | TStr | TUnicode | TList | TTuple | TDict.

(** [sys.maxint] of the 64-bit Linux builds the pipeline runs on. *)
Definition sys_maxint : Z := 9223372036854775807.

Definition int_type (n : Z) : pytype :=
  if bool_decide (- sys_maxint - 1 ≤ n ≤ sys_maxint)%Z then TInt else TLong.

Definition type_of_pyobj (x : pyobj) : pytype :=
  match x with
  | PyNone => TNoneType
  | PyStr _ => TStr
  | PyUnicode _ => TUnicode
  | PyInt n => int_type n
  | PyList _ => TList
  | PyTuple _ => TTuple
  end.

(** [isinstance(x, six.string_types)]: on Python 2 this is [basestring],
    the base of both [str] and [unicode]. *)
Definition is_string_types (x : pyobj) : bool :=
  match x with PyStr _ | PyUnicode _ => true | _ => false end.

Definition is_None (x : pyobj) : bool :=
  match x with PyNone => true | _ => false end.

(** ** JSON values, as [json.load] returns them

    Objects become [dict]s, arrays [list]s, strings [unicode] (kept here by
    their UTF-8 bytes, which identify them), integers [int] or [long],
    [true]/[false] the booleans and [null] is [None].  Floating-point
    numbers are left out of the embedding. *)
Inductive json :=
  | JNull
  | JBool (v : bool)
  | JInt (n : Z)
  | JStr (s : string)
  | JList (l : list json)
  | JObj (m : gmap string json).

(** ** Exceptions *)

Inductive errno := EEXIST | ENOENT | ENOTDIR.

Inductive value_error :=
  (** [unichr() arg not in range(0x110000)] *)
  | UnichrRange
  (** ['Expected string type, got type %s' % str(type(x))] *)
  | ExpectedStringType (t : pytype)
  (** ["No merge strategy for key %s, value of type %s, from %s into %s"],
      with the four values the message interpolates, in that order. *)
  | NoMergeStrategy (key : string) (t : pytype) (value old : json).

Inductive exn :=
  | AssertionError
  | AttributeError
  | IndexError
  | OverflowError
  | UnicodeDecodeError
  | ValueError (e : value_error)
  | IOError (filename : string)
  | OSError (e : errno)
  | RuntimeError (msg : string)
  | Exception (msg : string)
  | UnicodeEncodeError.

Inductive result (A : Type) :=
  | Ok (a : A)
  | Raise (e : exn).
Arguments Ok {A} a.
Arguments Raise {A} e.

#[global] Instance result_ret : MRet result := @Ok.
#[global] Instance result_bind : MBind result := λ A B f r,
  match r with Ok a => f a | Raise e => Raise e end.
#[global] Instance result_fmap : FMap result := λ A B f r,
  match r with Ok a => Ok (f a) | Raise e => Raise e end.

(** ** Codecs of the Python runtime *)

(** [s.encode('ascii', 'xmlcharrefreplace')] for a [unicode] s, whose items
    are whole code points (a wide build of the interpreter). *)
Definition xmlcharref (c : N) : list ascii := b "&#" ++ decimal c ++ b ";".

Definition encode_ascii_xmlcharrefreplace (s : list N) : list ascii :=
  flat_map (λ c, if c <? 128 then [ascii_of_N c] else xmlcharref c) s.

(** [s.decode('ascii')]: what Python 2 does to a [str] before it encodes it. *)
Definition decode_ascii (s : list ascii) : result (list N) :=
  if forallb (λ c, N_of_ascii c <? 128) s then Ok (N_of_ascii <$> s)
  else Raise UnicodeDecodeError.

(** [s.decode('ascii', 'ignore')] *)
Definition decode_ascii_ignore (s : list ascii) : list N :=
  N_of_ascii <$> filter (λ c, N_of_ascii c < 128) s.

Definition continuation (c : N) : bool := (128 <=? c) && (c <? 192).

(** [s.decode('utf8')], as CPython 2.7 decodes (surrogates are let through). *)
Fixpoint decode_utf8 (s : list N) : result (list N) :=
  match s with
  | [] => Ok []
  | c0 :: s1 =>
    if c0 <? 128 then r ← decode_utf8 s1; Ok (c0 :: r)
    else if (194 <=? c0) && (c0 <? 224) then
      match s1 with
      | c1 :: s2 =>
        if continuation c1
        then r ← decode_utf8 s2; Ok (((c0 - 192) * 64 + (c1 - 128)) :: r)
        else Raise UnicodeDecodeError
      | _ => Raise UnicodeDecodeError
      end
    else if (224 <=? c0) && (c0 <? 240) then
      match s1 with
      | c1 :: c2 :: s3 =>
        if continuation c1 && continuation c2 && negb ((c0 =? 224) && (c1 <? 160))
        then r ← decode_utf8 s3;
             Ok (((c0 - 224) * 4096 + (c1 - 128) * 64 + (c2 - 128)) :: r)
        else Raise UnicodeDecodeError
      | _ => Raise UnicodeDecodeError
      end
    else if (240 <=? c0) && (c0 <? 245) then
      match s1 with
      | c1 :: c2 :: c3 :: s4 =>
        if continuation c1 && continuation c2 && continuation c3
           && negb ((c0 =? 240) && (c1 <? 144)) && negb ((c0 =? 244) && (143 <? c1))
        then r ← decode_utf8 s4;
             Ok (((c0 - 240) * 262144 + (c1 - 128) * 4096
                  + (c2 - 128) * 64 + (c3 - 128)) :: r)
        else Raise UnicodeDecodeError
      | _ => Raise UnicodeDecodeError
      end
    else Raise UnicodeDecodeError
  end.

(** [encode_element] is the lambda that [create_hdf5_string_dataset] maps
    over its data.  A [str] is first decoded as ASCII by the runtime; an
    object with no [encode] method raises [AttributeError]. *)
Definition encode_element (x : pyobj) : result (list ascii) :=
  match x with
  | PyNone => Ok []
  | PyUnicode s => Ok (encode_ascii_xmlcharrefreplace s)
  | PyStr s => t ← decode_ascii s; Ok (encode_ascii_xmlcharrefreplace t)
  | _ => Raise AttributeError
  end.

(** ** [HTMLParser.unescape] of the Python 2.7 library *)

(** [htmlentitydefs.name2codepoint]: the character entities of HTML 4. *)
Definition name2codepoint : list (string * N) :=
  [ ("quot", 34); ("amp", 38); ("lt", 60); ("gt", 62);
    ("nbsp", 160); ("iexcl", 161); ("cent", 162); ("pound", 163);
    ("curren", 164); ("yen", 165); ("brvbar", 166); ("sect", 167);
    ("uml", 168); ("copy", 169); ("ordf", 170); ("laquo", 171);
    ("not", 172); ("shy", 173); ("reg", 174); ("macr", 175);
    ("deg", 176); ("plusmn", 177); ("sup2", 178); ("sup3", 179);
    ("acute", 180); ("micro", 181); ("para", 182); ("middot", 183);
    ("cedil", 184); ("sup1", 185); ("ordm", 186); ("raquo", 187);
    ("frac14", 188); ("frac12", 189); ("frac34", 190); ("iquest", 191);
    ("Agrave", 192); ("Aacute", 193); ("Acirc", 194); ("Atilde", 195);
    ("Auml", 196); ("Aring", 197); ("AElig", 198); ("Ccedil", 199);
    ("Egrave", 200); ("Eacute", 201); ("Ecirc", 202); ("Euml", 203);
    ("Igrave", 204); ("Iacute", 205); ("Icirc", 206); ("Iuml", 207);
    ("ETH", 208); ("Ntilde", 209); ("Ograve", 210); ("Oacute", 211);
    ("Ocirc", 212); ("Otilde", 213); ("Ouml", 214); ("times", 215);
    ("Oslash", 216); ("Ugrave", 217); ("Uacute", 218); ("Ucirc", 219);
    ("Uuml", 220); ("Yacute", 221); ("THORN", 222); ("szlig", 223);
    ("agrave", 224); ("aacute", 225); ("acirc", 226); ("atilde", 227);
    ("auml", 228); ("aring", 229); ("aelig", 230); ("ccedil", 231);
    ("egrave", 232); ("eacute", 233); ("ecirc", 234); ("euml", 235);
    ("igrave", 236); ("iacute", 237); ("icirc", 238); ("iuml", 239);
    ("eth", 240); ("ntilde", 241); ("ograve", 242); ("oacute", 243);
    ("ocirc", 244); ("otilde", 245); ("ouml", 246); ("divide", 247);
    ("oslash", 248); ("ugrave", 249); ("uacute", 250); ("ucirc", 251);
    ("uuml", 252); ("yacute", 253); ("thorn", 254); ("yuml", 255);
    ("OElig", 338); ("oelig", 339); ("Scaron", 352); ("scaron", 353);
    ("Yuml", 376); ("fnof", 402); ("circ", 710); ("tilde", 732);
    ("Alpha", 913); ("Beta", 914); ("Gamma", 915); ("Delta", 916);
    ("Epsilon", 917); ("Zeta", 918); ("Eta", 919); ("Theta", 920);
    ("Iota", 921); ("Kappa", 922); ("Lambda", 923); ("Mu", 924);
    ("Nu", 925); ("Xi", 926); ("Omicron", 927); ("Pi", 928);
    ("Rho", 929); ("Sigma", 931); ("Tau", 932); ("Upsilon", 933);
    ("Phi", 934); ("Chi", 935); ("Psi", 936); ("Omega", 937);
    ("alpha", 945); ("beta", 946); ("gamma", 947); ("delta", 948);
    ("epsilon", 949); ("zeta", 950); ("eta", 951); ("theta", 952);
    ("iota", 953); ("kappa", 954); ("lambda", 955); ("mu", 956);
    ("nu", 957); ("xi", 958); ("omicron", 959); ("pi", 960);
    ("rho", 961); ("sigmaf", 962); ("sigma", 963); ("tau", 964);
    ("upsilon", 965); ("phi", 966); ("chi", 967); ("psi", 968);
    ("omega", 969); ("thetasym", 977); ("upsih", 978); ("piv", 982);
    ("ensp", 8194); ("emsp", 8195); ("thinsp", 8201); ("zwnj", 8204);
    ("zwj", 8205); ("lrm", 8206); ("rlm", 8207); ("ndash", 8211);
    ("mdash", 8212); ("lsquo", 8216); ("rsquo", 8217); ("sbquo", 8218);
    ("ldquo", 8220); ("rdquo", 8221); ("bdquo", 8222); ("dagger", 8224);
    ("Dagger", 8225); ("bull", 8226); ("hellip", 8230); ("permil", 8240);
    ("prime", 8242); ("Prime", 8243); ("lsaquo", 8249); ("rsaquo", 8250);
    ("oline", 8254); ("frasl", 8260); ("euro", 8364); ("image", 8465);
    ("weierp", 8472); ("real", 8476); ("trade", 8482); ("alefsym", 8501);
    ("larr", 8592); ("uarr", 8593); ("rarr", 8594); ("darr", 8595);
    ("harr", 8596); ("crarr", 8629); ("lArr", 8656); ("uArr", 8657);
    ("rArr", 8658); ("dArr", 8659); ("hArr", 8660); ("forall", 8704);
    ("part", 8706); ("exist", 8707); ("empty", 8709); ("nabla", 8711);
    ("isin", 8712); ("notin", 8713); ("ni", 8715); ("prod", 8719);
    ("sum", 8721); ("minus", 8722); ("lowast", 8727); ("radic", 8730);
    ("prop", 8733); ("infin", 8734); ("ang", 8736); ("and", 8743);
    ("or", 8744); ("cap", 8745); ("cup", 8746); ("int", 8747);
    ("there4", 8756); ("sim", 8764); ("cong", 8773); ("asymp", 8776);
    ("ne", 8800); ("equiv", 8801); ("le", 8804); ("ge", 8805);
    ("sub", 8834); ("sup", 8835); ("nsub", 8836); ("sube", 8838);
    ("supe", 8839); ("oplus", 8853); ("otimes", 8855); ("perp", 8869);
    ("sdot", 8901); ("lceil", 8968); ("rceil", 8969); ("lfloor", 8970);
    ("rfloor", 8971); ("lang", 9001); ("rang", 9002); ("loz", 9674);
    ("spades", 9824); ("clubs", 9827); ("hearts", 9829); ("diams", 9830)
  ]%string.

(** [HTMLParser.entitydefs]: the table above and [apos], looked up by a
    [unicode] name. *)
Definition entitydefs (name : list N) : option N :=
  snd <$> find (λ kv, bool_decide (u kv.1 = name)) (("apos"%string, 39) :: name2codepoint).

Definition AMP : N := 38.
Definition HASH : N := 35.
Definition SEMICOLON : N := 59.

Definition is_digit (c : N) : bool := (48 <=? c) && (c <=? 57).
Definition is_hexdigit (c : N) : bool :=
  is_digit c || ((97 <=? c) && (c <=? 102)) || ((65 <=? c) && (c <=? 70)).
(** [\w] of a pattern compiled without flags. *)
Definition is_word (c : N) : bool :=
  is_digit c || ((97 <=? c) && (c <=? 122)) || ((65 <=? c) && (c <=? 90)) || (c =? 95).
Definition is_x (c : N) : bool := (c =? 120) || (c =? 88).

(** The group of [r"&(#?[xX]?(?:[0-9a-fA-F]+|\w{1,8}));"], read as the
    pattern is written: [(?:[0-9a-fA-F]+|\w{1,8})], then [[xX]?] before it,
    then [#?] before that. *)
Definition match_body (t : list N) : bool :=
  (bool_decide (t ≠ []) && forallb is_hexdigit t)
  || (bool_decide (t ≠ []) && bool_decide (length t ≤ 8)%nat && forallb is_word t).

Definition match_x (t : list N) : bool :=
  match t with
  | c :: t' => (is_x c && match_body t') || match_body t
  | [] => match_body t
  end.

Definition match_group (t : list N) : bool :=
  match t with
  | c :: t' => ((c =? HASH) && match_x t') || match_x t
  | [] => match_x t
  end.

(** The text up to the first [;] and the text after it. *)
Fixpoint split_semicolon (s : list N) : option (list N * list N) :=
  match s with
  | [] => None
  | c :: s' =>
    if c =? SEMICOLON then Some ([], s')
    else match split_semicolon s' with
         | Some (t, r) => Some (c :: t, r)
         | None => None
         end
  end.

(** A match of the pattern at an [&]: [s] is the text after the [&].  No
    character of the group is a [;], so the group is the text up to the
    first [;]. *)
Definition match_entity (s : list N) : option (list N * list N) :=
  match split_semicolon s with
  | Some (t, r) => if match_group t then Some (t, r) else None
  | None => None
  end.

(** [int(s)] on a text of word characters: [None] is [ValueError]. *)
Definition py_int10 (s : list N) : option N :=
  if forallb is_digit s
  then N.of_uint <$> DecimalString.NilZero.uint_of_string (to_string s)
  else None.

Definition hex_value (c : N) : N :=
  if is_digit c then c - 48 else if 97 <=? c then c - 87 else c - 55.

(** [int(s, 16)] on a text of word characters; a [0x] before a digit is
    skipped. *)
Definition py_int16 (s : list N) : option N :=
  let digits :=
    match s with
    | 48 :: x :: d :: r => if is_x x && is_hexdigit d then d :: r else s
    | _ => s
    end in
  if bool_decide (digits ≠ []) && forallb is_hexdigit digits
  then Some (fold_left (λ a c, 16 * a + hex_value c) digits 0)
  else None.

(** [unichr(c)] of a wide build: a C [int] that is no code point is a
    [ValueError], a number that is no C [int] an [OverflowError]. *)
Definition unichr (c : N) : result N :=
  if c <? 1114112 then Ok c
  else if c <=? 2147483647 then Raise (ValueError UnichrRange)
  else Raise OverflowError.

(** [replaceEntities], on the group of a match. *)
Definition replaceEntities (g : list N) : result (list N) :=
  match g with
  | [] => Raise IndexError
  | c :: s =>
    if c =? HASH then
      match s with
      | [] => Raise IndexError
      | x :: s' =>
        match (if is_x x then py_int16 s' else py_int10 s) with
        | None => Ok (u "&#" ++ s ++ u ";")
        | Some n =>
          match unichr n with
          | Ok ch => Ok [ch]
          | Raise (ValueError _) => Ok (u "&#" ++ s ++ u ";")
          | Raise e => Raise e
          end
        end
      end
    else
      match entitydefs g with
      | Some ch => Ok [ch]
      | None => Ok (u "&" ++ g ++ u ";")
      end
  end.

(** [re.sub(pattern, replaceEntities, s)]: at each position, a match is
    replaced and the scan goes on after it, any other character is kept.
    [fuel] bounds the number of positions; [length s] is enough. *)
Fixpoint re_sub (fuel : nat) (s : list N) : result (list N) :=
  match fuel, s with
  | _, [] => Ok []
  | O, _ => Ok s
  | S fuel, c :: s' =>
    if c =? AMP then
      match match_entity s' with
      | Some (g, rest) =>
        r ← replaceEntities g; t ← re_sub fuel rest; Ok (r ++ t)
      | None => t ← re_sub fuel s'; Ok (c :: t)
      end
    else t ← re_sub fuel s'; Ok (c :: t)
  end.

Definition unescape (s : list N) : result (list N) :=
  if negb (existsb (λ c, c =? AMP) s) then Ok s
  else re_sub (length s) s.

(** ** HDF5 datasets, as h5py and numpy present them *)

(** A one-dimensional dataset of dtype ['S<dtype_len>'].  [shape = None] is
    the null dataspace h5py makes when it is given neither data nor a shape;
    otherwise every row holds exactly [dtype_len] bytes. *)
Record dataset := Dataset {
  dtype_len : nat;
  shape : option nat;
  rows : list (list ascii)
}.

(** A byte string in a field of [w] bytes: cut to the width, NUL-padded. *)
Definition fixed_width (w : nat) (s : list ascii) : list ascii :=
  take w s ++ replicate (w - length s) NUL.

(** An item read back from the array: the trailing NULs are gone. *)
Definition rstrip_nul (s : list ascii) : list ascii :=
  foldr (λ c acc, if bool_decide (c = NUL) && bool_decide (acc = []) then [] else c :: acc) [] s.

(** [group.create_dataset(name, data=data, dtype='S%d' % n)]; [data = None]
    is the call without data.  A name in use is refused.  The keyword
    arguments the caller forwards (compression and the like) do not change
    what is stored and are left out. *)
Definition create_dataset (group : gmap string dataset) (name : string) (n : nat)
    (data : option (list (list ascii))) : result unit * gmap string dataset :=
  match group !! name with
  | Some _ => (Raise (RuntimeError "Unable to create link (name already exists)"), group)
  | None =>
    let ds :=
      match data with
      | None => Dataset n None []
      | Some d => Dataset n (Some (length d)) (fixed_width n <$> d)
      end in
    (Ok (), <[name := ds]> group)
  end.

(** ** The string codec *)

Definition create_hdf5_string_dataset (group : gmap string dataset) (name : string)
    (data : pyobj) : result unit * gmap string dataset :=
  match data with
  | PyNone | PyList [] => create_dataset group name 1 None
  | PyList l =>
    if negb (forallb (λ x, is_None x || is_string_types x) l)
    then (Raise AssertionError, group)
    else
      match mapM encode_element l with
      | Raise e => (Raise e, group)
      | Ok data =>
        let fixed_len := max_list (length <$> data) in
        let fixed_len := if bool_decide (fixed_len = 0%nat) then 1%nat else fixed_len in
        create_dataset group name fixed_len (Some data)
      end
  | _ => (Raise AssertionError, group)
  end.

Definition make_utf8 (x : pyobj) : result pyobj :=
  match x with
  | PyUnicode _ => Ok x
  | PyStr s => t ← decode_utf8 (N_of_ascii <$> s); Ok (PyUnicode t)
  | _ => Raise (ValueError (ExpectedStringType (type_of_pyobj x)))
  end.

Definition read_hdf5_string_dataset (ds : dataset) : result (list pyobj) :=
  match shape ds with
  | None => Ok []
  | Some _ =>
    let data := rstrip_nul <$> rows ds in
    let ascii_strings := decode_ascii_ignore <$> data in
    unescaped ← mapM unescape ascii_strings;
    mapM make_utf8 (PyUnicode <$> unescaped)
  end.

(** [x == y] on the objects above: a [str] equals the [unicode] it decodes
    to as ASCII, sequences are compared item by item. *)
Fixpoint py_eq (x y : pyobj) : bool :=
  let fix all2 (l k : list pyobj) : bool :=
    match l, k with
    | [], [] => true
    | a :: l', c :: k' => py_eq a c && all2 l' k'
    | _, _ => false
    end in
  match x, y with
  | PyNone, PyNone => true
  | PyStr s, PyStr t => bool_decide (s = t)
  | PyUnicode s, PyUnicode t => bool_decide (s = t)
  | PyStr s, PyUnicode t | PyUnicode t, PyStr s =>
    forallb (λ c, N_of_ascii c <? 128) s && bool_decide (N_of_ascii <$> s = t)
  | PyInt n, PyInt m => bool_decide (n = m)
  | PyList l, PyList k => all2 l k
  | PyTuple l, PyTuple k => all2 l k
  | _, _ => false
  end.

(** ** The JSON merger *)

Definition type_of_json (v : json) : pytype :=
  match v with
  | JNull => TNoneType
  | JBool _ => TBool
  | JInt n => int_type n
  | JStr _ => TUnicode
  | JList _ => TList
  | JObj _ => TDict
  end.

(** [x == y] on what [json.load] returns.  [bool] is a subclass of [int]:
    [True == 1] and [False == 0].  Two dictionaries are equal when they have
    as many keys and every value of the first equals the value the second
    has for its key. *)
Fixpoint json_eq (x y : json) : bool :=
  let fix all2 (l k : list json) : bool :=
    match l, k with
    | [], [] => true
    | a :: l', c :: k' => json_eq a c && all2 l' k'
    | _, _ => false
    end in
  match x, y with
  | JNull, JNull => true
  | JBool v, JBool w => bool_decide (v = w)
  | JBool v, JInt n | JInt n, JBool v => bool_decide (n = if v then 1 else 0)%Z
  | JInt n, JInt m => bool_decide (n = m)
  | JStr s, JStr t => bool_decide (s = t)
  | JList l, JList k => all2 l k
  | JObj m, JObj m' =>
    bool_decide (size m = size m')
    && map_fold (λ k v acc,
         acc && match m' !! k with Some w => json_eq v w | None => false end) true m
  | _, _ => false
  end.

(** [str(x)] of a [unicode] is [x.encode('ascii')]: a character outside
    ASCII, which is a byte above 127 of the UTF-8 form, is a
    [UnicodeEncodeError]. *)
Definition is_ascii (s : string) : bool :=
  forallb (λ c, N_of_ascii c <? 128) (list_ascii_of_string s).

Definition str_unicode (s : string) : result string :=
  if is_ascii s then Ok s else Raise UnicodeEncodeError.

(** [str(v)] of a value of [json.load], as far as it can fail: a list and
    a dictionary are rendered through the [repr] of their items, which
    escapes what is not ASCII, so only a string is put through the codec. *)
Definition str_json (v : json) : result unit :=
  match v with
  | JStr s => _ ← str_unicode s; Ok ()
  | _ => Ok ()
  end.

(** What the [raise] statement raises: the arguments of the format are
    evaluated first, [str(key)], [str(type(value))], [str(value)] and
    [str(merged[key])] in this order, and the [ValueError] is made from
    them when none of them has failed. *)
Definition no_merge_strategy (key : string) (value old : json) : exn :=
  match (_ ← str_unicode key; _ ← str_json value; str_json old) with
  | Ok _ => ValueError (NoMergeStrategy key (type_of_json value) value old)
  | Raise e => e
  end.

(** The body of the inner loop: one [key, value] pair of a file merged into
    [merged].  [dict.update] lets the entries of [value] win. *)
Definition merge_item (merged : gmap string json) (key : string) (value : json)
    : result (gmap string json) :=
  match merged !! key with
  | None => Ok (<[key := value]> merged)
  | Some old =>
    if json_eq old value then Ok merged
    else
      match value, old with
      | JObj dv, JObj dm => Ok (<[key := JObj (dv ∪ dm)]> merged)
      | _, _ => Raise (no_merge_strategy key value old)
      end
  end.

(** [for key, value in d.iteritems()], in the order the dictionary yields
    its items; the first exception ends the loop. *)
Fixpoint merge_items (merged : gmap string json) (items : list (string * json))
    : result (gmap string json) :=
  match items with
  | [] => Ok merged
  | (key, value) :: items' =>
    merged' ← merge_item merged key value; merge_items merged' items'
  end.

(** One file: [disk] gives, for a path that can be opened, what [json.load]
    reads from it.  A value that is no dictionary has no [iteritems]. *)
Definition merge_file (disk : gmap string json) (merged : gmap string json)
    (filename : string) : result (gmap string json) :=
  match disk !! filename with
  | None => Raise (IOError filename)
  | Some (JObj d) => merge_items merged (map_to_list d)
  | Some _ => Raise AttributeError
  end.

Fixpoint merge_files (disk : gmap string json) (merged : gmap string json)
    (filenames : list string) : result (gmap string json) :=
  match filenames with
  | [] => Ok merged
  | filename :: filenames' =>
    merged' ← merge_file disk merged filename; merge_files disk merged' filenames'
  end.

Definition merge_jsons_single_level (disk : gmap string json) (filenames : list string)
    : result (gmap string json) :=
  merge_files disk ∅ filenames.

(** ** Files, directories and external commands *)

Inductive node :=
  | File (content : list ascii)
  | Dir.

(** A path is the list of its components, the last one first:
    [os.path.join(p, name)] is [name :: p] and [os.path.split(p)] gives the
    tail and the head of the list.  The root is []. *)
Definition stat (fs : gmap (list string) node) (p : list string) : option node :=
  match p with
  | [] => Some Dir
  | _ => fs !! p
  end.

Definition exists_ (fs : gmap (list string) node) (p : list string) : bool :=
  bool_decide (is_Some (stat fs p)).

Definition isdir (fs : gmap (list string) node) (p : list string) : bool :=
  match stat fs p with Some Dir => true | _ => false end.

Definition os_mkdir (p : list string) (fs : gmap (list string) node)
    : result unit * gmap (list string) node :=
  match stat fs p, p with
  | Some _, _ => (Raise (OSError EEXIST), fs)
  | None, [] => (Raise (OSError EEXIST), fs)
  | None, _ :: head =>
    match stat fs head with
    | None => (Raise (OSError ENOENT), fs)
    | Some (File _) => (Raise (OSError ENOTDIR), fs)
    | Some Dir => (Ok (), <[p := Dir]> fs)
    end
  end.

(** [os.makedirs] of Python 2.7: a missing head is made first, and an
    [EEXIST] from making it is passed over. *)
Fixpoint os_makedirs (name : list string) (fs : gmap (list string) node)
    : result unit * gmap (list string) node :=
  match name with
  | [] => os_mkdir name fs
  | _ :: head =>
    if negb (exists_ fs head) then
      match os_makedirs head fs with
      | (Raise (OSError EEXIST), fs') => os_mkdir name fs'
      | (Raise e, fs') => (Raise e, fs')
      | (Ok (), fs') => os_mkdir name fs'
      end
    else os_mkdir name fs
  end.

Definition os_listdir (p : list string) (fs : gmap (list string) node)
    : result (list string) :=
  match stat fs p with
  | None => Raise (OSError ENOENT)
  | Some (File _) => Raise (OSError ENOTDIR)
  | Some Dir =>
    Ok (omap (λ kv, match kv.1 with
                    | name :: head => if bool_decide (head = p) then Some name else None
                    | [] => None
                    end) (map_to_list fs))
  end.

Definition makedirs (dst : list string) (allow_existing : bool)
    (fs : gmap (list string) node) : result unit * gmap (list string) node :=
  if allow_existing then
    match os_makedirs dst fs with
    | (Raise (OSError EEXIST), fs') =>
      if isdir fs' dst then (Ok (), fs') else (Raise (OSError EEXIST), fs')
    | r => r
    end
  else os_makedirs dst fs.

(** A [subprocess.Popen] object after [communicate()].  The class defines
    neither [__str__] nor [__repr__], so [str(p)] is the default rendering
    of an object, which shows the class and the address. *)
Record process := Process {
  address : N;
  returncode : Z;
  stderr_data : list ascii
}.

Definition str_process (p : process) : list ascii :=
  b "<subprocess.Popen object at 0x"
  ++ list_ascii_of_string (HexadecimalString.NilZero.string_of_uint (N.to_hex_uint (address p)))
  ++ b ">".

(** ['%d' % n] *)
Definition decimal_Z (n : Z) : list ascii :=
  list_ascii_of_string (DecimalString.NilZero.string_of_int (Z.to_int n)).

(** [' '.join([cmd] + args)], with each path written out from the root. *)
Definition path_string (p : list string) : list ascii :=
  flat_map (λ c, b "/" ++ list_ascii_of_string c) (rev p).

Section Commands.

(** [tk_subproc.Popen([cmd] + args, stderr=subprocess.PIPE)] run to its end
    by [p.communicate()]: what the program does to the files, and the
    finished process, or the [OSError] of a program that cannot be
    started.  The programs ([cp], [mv]) are not part of the module. *)
Variable Popen : string → list (list string) → gmap (list string) node
                 → result process * gmap (list string) node.

Definition run_command_safely (cmd : string) (args : list (list string))
    (fs : gmap (list string) node) : result unit * gmap (list string) node :=
  match Popen cmd args fs with
  | (Raise e, fs') => (Raise e, fs')
  | (Ok p, fs') =>
    if bool_decide (returncode p ≠ 0%Z) then
      (Raise (Exception (string_of_list_ascii
         (str_process p ++ b " returned error code " ++ decimal_Z (returncode p)
          ++ b ": " ++ stderr_data p))), fs')
    else (Ok (), fs')
  end.

Definition copy (src dst : list string) := run_command_safely "cp" [src; dst].

Definition move (src dst : list string) := run_command_safely "mv" [src; dst].

(** The loop of [copytree] over the names of [os.listdir(src)]; [rec] is
    the recursive call [copytree(srcname, dstname)]. *)
Fixpoint copytree_names
    (rec : list string → list string → gmap (list string) node
           → result unit * gmap (list string) node)
    (src dst : list string) (names : list string) (fs : gmap (list string) node)
    : result unit * gmap (list string) node :=
  match names with
  | [] => (Ok (), fs)
  | name :: names' =>
    let srcname := name :: src in
    let dstname := name :: dst in
    match (if isdir fs srcname then rec srcname dstname fs
           else copy srcname dstname fs) with
    | (Raise e, fs') => (Raise e, fs')
    | (Ok (), fs') => copytree_names rec src dst names' fs'
    end
  end.

(** [depth] is the number of frames the interpreter still allows: beyond
    it Python raises [RuntimeError]. *)
Fixpoint copytree (depth : nat) (src dst : list string) (allow_existing : bool)
    (fs : gmap (list string) node) : result unit * gmap (list string) node :=
  match depth with
  | O => (Raise (RuntimeError "maximum recursion depth exceeded"), fs)
  | S depth =>
    match makedirs dst allow_existing fs with
    | (Raise e, fs') => (Raise e, fs')
    | (Ok (), fs') =>
      match os_listdir src fs' with
      | Raise e => (Raise e, fs')
      | Ok names =>
        copytree_names (λ srcname dstname, copytree depth srcname dstname false)
          src dst names fs'
      end
    end
  end.

End Commands.

(** An instance of [Popen] with cp(1) alone on the [PATH], to run the
    wrappers on: [cp src dst] copies a regular file onto [dst], or into it
    when [dst] is a directory, and exits with status 1 otherwise. *)
Definition cp_failed (msg : string) (p : list string) : process :=
  Process 140230000000000 1 (b "cp: " ++ b msg ++ b " '" ++ path_string p ++ b "'").

Definition cp_write (content : list ascii) (target : list string)
    (fs : gmap (list string) node) : result process * gmap (list string) node :=
  match stat fs target, target with
  | Some Dir, _ => (Ok (cp_failed "cannot overwrite directory" target), fs)
  | Some (File _), _ => (Ok (Process 140230000000000 0 []), <[target := File content]> fs)
  | None, [] => (Ok (cp_failed "cannot overwrite directory" target), fs)
  | None, _ :: head =>
    match stat fs head with
    | Some Dir => (Ok (Process 140230000000000 0 []), <[target := File content]> fs)
    | _ => (Ok (cp_failed "cannot create regular file" target), fs)
    end
  end.

Definition Popen_cp (cmd : string) (args : list (list string))
    (fs : gmap (list string) node) : result process * gmap (list string) node :=
  if bool_decide (cmd = "cp"%string) then
    match args with
    | [src; dst] =>
      match stat fs src, src with
      | Some (File content), name :: _ =>
        match stat fs dst with
        | Some Dir => cp_write content (name :: dst) fs
        | _ => cp_write content dst fs
        end
      | Some (File content), [] => (Ok (cp_failed "cannot stat" src), fs)
      | Some Dir, _ => (Ok (cp_failed "omitting directory" src), fs)
      | None, _ => (Ok (cp_failed "cannot stat" src), fs)
      end
    | _ => (Ok (Process 140230000000000 1 (b "cp: missing file operand")), fs)
    end
  else (Raise (OSError ENOENT), fs).

(** What the amended round trip asks of a text: a reference is an [&] at
    which the pattern of [unescape] matches. *)
Fixpoint has_reference (s : list N) : bool :=
  match s with
  | [] => false
  | c :: s' =>
    ((c =? AMP) && bool_decide (is_Some (match_entity s'))) || has_reference s'
  end.

Definition plain_ascii (s : list N) : bool :=
  forallb (λ c, c <? 128) s && negb (has_reference s) && bool_decide (last s ≠ Some 0).

(** A text value of 7-bit ASCII content, as a [str] or as a [unicode]. *)
Definition text_of (x : pyobj) : list N :=
  match x with
  | PyStr s => N_of_ascii <$> s
  | PyUnicode s => s
  | _ => []
  end.

Definition plain_ascii_text (x : pyobj) : bool :=
  is_string_types x && plain_ascii (text_of x).

(** The elements the encoder takes: [None], a [unicode], or a [str] of
    ASCII bytes; and the bytes it stores for each. *)
Definition encodable (x : pyobj) : bool :=
  match x with
  | PyNone | PyUnicode _ => true
  | PyStr s => forallb (λ c, N_of_ascii c <? 128) s
  | _ => false
  end.

Definition encoded (x : pyobj) : list ascii :=
  match x with
  | PyUnicode s => flat_map (λ c, if c <? 128 then [ascii_of_N c]
                                  else b "&#" ++ decimal c ++ b ";") s
  | PyStr s => s
  | _ => []
  end.

(** What the amended order independence asks of the files.  Two
    dictionaries agree when they give the same value to every key they
    share; two values are compatible when they are the same value, or
    dictionaries that agree. *)
Definition agree (m m' : gmap string json) : Prop :=
  ∀ k v w, m !! k = Some v → m' !! k = Some w → v = w.

Definition compatible (v w : json) : Prop :=
  v = w ∨ ∃ m m', v = JObj m ∧ w = JObj m' ∧ agree m m'.

Definition readable (disk : gmap string json) (filenames : list string) : Prop :=
  ∀ f, f ∈ filenames → ∃ d, disk !! f = Some (JObj d).



(** What [merge_item] leaves under a key that held [old], for a compatible
    [value]; and the merge of a whole dictionary of compatible values. *)
Definition joined (old value : json) : json :=
  match value, old with
  | JObj dv, JObj dm => JObj (dv ∪ dm)
  | _, _ => old
  end.

Definition merge_dict (merged d : gmap string json) : gmap string json :=
  union_with (λ old value, Some (joined old value)) merged d.

(** The values for which the merger has no strategy. *)
Definition conflict (old value : json) : Prop :=
  json_eq old value = false ∧ ¬ ∃ dv dm, value = JObj dv ∧ old = JObj dm.

(** The number of constructors of a value. *)
Fixpoint json_size (v : json) : nat :=
  match v with
  | JList l => S ((fix sum (l : list json) : nat :=
                     match l with [] => 0 | x :: l' => json_size x + sum l' end) l)
  | JObj m => S (map_fold (λ _ x acc, json_size x + acc) 0 m)
  | _ => 1
  end%nat.

(** An instance of [Popen] whose process is killed before it writes
    anything: [returncode] is the negated signal number, here SIGKILL. *)
Definition Popen_killed (cmd : string) (args : list (list string))
    (fs : gmap (list string) node) : result process * gmap (list string) node :=
  (Ok (Process 140230000000000 (-9) []), fs).

(** Every directory of [fs] is a directory of [fs']. *)
Definition keeps_dirs (fs fs' : gmap (list string) node) : Prop :=
  ∀ p, isdir fs p = true → isdir fs' p = true.

(** Every entry of [fs] lies in a directory. *)
Definition well_formed (fs : gmap (list string) node) : bool :=
  forallb (λ kv, match kv.1 with
                 | [] => false
                 | _ :: head => isdir fs head
                 end) (map_to_list fs).

(** ** Further definitions of the codec *)

Definition is_unicode (x : pyobj) : bool :=
  match x with PyUnicode _ => true | _ => false end.

(** An absent element, written as the empty text. *)
Definition absent_as_empty (x : pyobj) : pyobj :=
  match x with PyNone => PyUnicode [] | _ => x end.

Definition is_empty_text (x : pyobj) : bool :=
  match x with
  | PyNone | PyStr [] | PyUnicode [] => true
  | _ => false
  end.

(** ** Further definitions of the file helpers *)

Definition mkdir (dst : list string) (allow_existing : bool)
    (fs : gmap (list string) node) : result unit * gmap (list string) node :=
  if allow_existing then
    match os_mkdir dst fs with
    | (Raise (OSError EEXIST), fs') =>
      if isdir fs' dst then (Ok (), fs') else (Raise (OSError EEXIST), fs')
    | r => r
    end
  else os_mkdir dst fs.

(** [os.remove] is unlink(2).  Its [OSError] has one of three error
    numbers: [EISDIR] for a directory (as Linux reports it), and for a path
    that is not there [ENOTDIR] when the nearest ancestor that exists is a
    regular file, [ENOENT] otherwise. *)
Module unlink.
Inductive errno := ENOENT | ENOTDIR | EISDIR.
End unlink.

Inductive unlinked :=
  | Unlinked
  | UnlinkOSError (e : unlink.errno).

Fixpoint missing_errno (p : list string) (fs : gmap (list string) node) : unlink.errno :=
  match p with
  | [] => unlink.ENOENT
  | _ :: head =>
    match stat fs head with
    | Some (File _) => unlink.ENOTDIR
    | Some Dir => unlink.ENOENT
    | None => missing_errno head fs
    end
  end.

Definition os_remove (p : list string) (fs : gmap (list string) node)
    : unlinked * gmap (list string) node :=
  match stat fs p with
  | Some (File _) => (Unlinked, delete p fs)
  | Some Dir => (UnlinkOSError unlink.EISDIR, fs)
  | None => (UnlinkOSError (missing_errno p fs), fs)
  end.

Definition remove (f : list string) (allow_nonexisting : bool)
    (fs : gmap (list string) node) : unlinked * gmap (list string) node :=
  if allow_nonexisting then
    match os_remove f fs with
    | (UnlinkOSError unlink.ENOENT, fs') => (Unlinked, fs')
    | r => r
    end
  else os_remove f fs.

(** The name a path has in an [IOError]. *)
Definition filename_of (p : list string) : string :=
  string_of_list_ascii (path_string p).

(** [open(p, 'r')]: the bytes of a regular file, which the reads of the
    file object hand out from the first on.  A directory and a missing
    file are an [IOError]. *)
Definition open_read (p : list string) (fs : gmap (list string) node)
    : result (list ascii) :=
  match stat fs p with
  | Some (File content) => Ok content
  | _ => Raise (IOError (filename_of p))
  end.

(** [open(p, 'w')]: a regular file is emptied, a missing one is made in a
    directory that is there. *)
Definition open_write (p : list string) (fs : gmap (list string) node)
    : result unit * gmap (list string) node :=
  match stat fs p, p with
  | Some (File _), _ => (Ok (), <[p := File []]> fs)
  | Some Dir, _ => (Raise (IOError (filename_of p)), fs)
  | None, [] => (Raise (IOError (filename_of p)), fs)
  | None, _ :: head =>
    if isdir fs head then (Ok (), <[p := File []]> fs)
    else (Raise (IOError (filename_of p)), fs)
  end.

(** [out_file.write(data)] on the file opened at [p], taken together with
    the flush that closing the file brings: the bytes go to the end of
    the file.  (The input files are read as they are when they are
    opened; this differs from the buffered files of the library only for
    an input that is the output file itself.) *)
Definition write (p : list string) (data : list ascii)
    (fs : gmap (list string) node) : gmap (list string) node :=
  match fs !! p with
  | Some (File content) => <[p := File (content ++ data)]> fs
  | _ => fs
  end.

(** The loop of [concatenate_files]; [shutil.copyfileobj] writes all that
    is left of the input. *)
Fixpoint concatenate_loop (out_path : list string) (in_paths : list (list string))
    (fs : gmap (list string) node) : result unit * gmap (list string) node :=
  match in_paths with
  | [] => (Ok (), fs)
  | in_path :: in_paths' =>
    match open_read in_path fs with
    | Raise e => (Raise e, fs)
    | Ok in_file => concatenate_loop out_path in_paths' (write out_path in_file fs)
    end
  end.

Definition concatenate_files (out_path : list string) (in_paths : list (list string))
    (fs : gmap (list string) node) : result unit * gmap (list string) node :=
  match open_write out_path fs with
  | (Raise e, fs') => (Raise e, fs')
  | (Ok (), fs') => concatenate_loop out_path in_paths fs'
  end.

(** [in_file.readline()]: the bytes up to the first newline and with it,
    or all of them when there is none; and what is left to read. *)
Fixpoint readline (s : list ascii) : list ascii * list ascii :=
  match s with
  | [] => ([], [])
  | c :: s' =>
    if Ascii.eqb c "010" then ([c], s')
    else let (line, rest) := readline s' in (c :: line, rest)
  end.

(** The loop of [concatenate_headered_files] over [in_paths[1:]]. *)
Fixpoint headered_loop (out_path : list string) (header : list ascii)
    (in_paths : list (list string)) (fs : gmap (list string) node)
    : result unit * gmap (list string) node :=
  match in_paths with
  | [] => (Ok (), fs)
  | in_path :: in_paths' =>
    match open_read in_path fs with
    | Raise e => (Raise e, fs)
    | Ok in_file =>
      let (this_header, rest) := readline in_file in
      if bool_decide (this_header = header) then
        headered_loop out_path header in_paths' (write out_path rest fs)
      else (Raise AssertionError, fs)
    end
  end.

Definition concatenate_headered_files (out_path : list string)
    (in_paths : list (list string)) (fs : gmap (list string) node)
    : result unit * gmap (list string) node :=
  match open_write out_path fs with
  | (Raise e, fs') => (Raise e, fs')
  | (Ok (), fs') =>
    match in_paths with
    | [] => (Ok (), fs')
    | first :: in_paths' =>
      match open_read first fs' with
      | Raise e => (Raise e, fs')
      | Ok in_file =>
        let (header, rest) := readline in_file in
        headered_loop out_path header in_paths'
          (write out_path rest (write out_path header fs'))
      end
    end
  end.

(** [f.read(n)] on what is left of a file: [n] bytes, fewer at the end,
    and all of them for a negative [n]. *)
Definition read (n : Z) (rest : list ascii) : list ascii * list ascii :=
  if (n <? 0)%Z then (rest, [])
  else (take (Z.to_nat n) rest, drop (Z.to_nat n) rest).

Section Digest.

(** [hashlib.sha1()]: the object, its [update] and its [hexdigest].  The
    function itself is the library's. *)
Variable sha1_state : Type.
Variable sha1 : sha1_state.
Variable update : sha1_state → list ascii → sha1_state.
Variable hexdigest : sha1_state → string.

(** [for chunk in iter(lambda: f.read(block_size_bytes), b'')]: the loop
    ends at the first empty chunk.  [reads] bounds the number of calls of
    [f.read]. *)
Fixpoint update_chunks (reads : nat) (block_size_bytes : Z) (f : list ascii)
    (digest : sha1_state) : sha1_state :=
  match reads with
  | O => digest
  | S reads' =>
    match read block_size_bytes f with
    | ([], _) => digest
    | (chunk, f') => update_chunks reads' block_size_bytes f' (update digest chunk)
    end
  end.

(** A file of [k] bytes is read in at most [k + 1] calls when the block
    size is not 0, and in one call when it is. *)
Definition compute_hash_of_file (filename : list string) (block_size_bytes : Z)
    (fs : gmap (list string) node) : result string :=
  match open_read filename fs with
  | Raise e => Raise e
  | Ok f => Ok (hexdigest (update_chunks (S (length f)) block_size_bytes f sha1))
  end.

End Digest.

(** A digest to run the function on: the bytes themselves. *)
Definition identity_update (digest chunk : list ascii) : list ascii := digest ++ chunk.

(** Every entry of the directory [src] is a regular file. *)
Definition flat (src : list string) (fs : gmap (list string) node) : bool :=
  forallb (λ kv, match kv with
                 | (_ :: head, Dir) => negb (bool_decide (head = src))
                 | _ => true
                 end) (map_to_list fs).

(** What a copy asks of cp(1): called on a regular file and a free path
    in a directory, it writes the bytes of the file there, changes
    nothing else, and exits with status 0. *)
Definition copies_files
    (Popen : string → list (list string) → gmap (list string) node
             → result process * gmap (list string) node) : Prop :=
  ∀ src tail head content fs,
    stat fs src = Some (File content) → stat fs (tail :: head) = None →
    isdir fs head = true →
    ∃ p, Popen "cp"%string [src; tail :: head] fs
         = (Ok p, <[tail :: head := File content]> fs)
         ∧ returncode p = 0%Z.

(** * Properties *)

(** ** The runtime codecs *)

Lemma create_dataset_fresh (group : gmap string dataset) name n data :
  group !! name = None →
  create_dataset group name n data =
    (Ok (), <[name := match data with
                      | None => Dataset n None []
                      | Some d => Dataset n (Some (length d)) (fixed_width n <$> d)
                      end]> group).
Proof. intros H. unfold create_dataset. by rewrite H. Qed.

Lemma encode_ascii_bytes (s : list ascii) :
  forallb (λ c, N_of_ascii c <? 128) s = true →
  encode_ascii_xmlcharrefreplace (N_of_ascii <$> s) = s.
Proof.
  unfold encode_ascii_xmlcharrefreplace.
  induction s as [|c s IH]; [done|].
  intros [Hc Hs]%andb_prop. rewrite fmap_cons. cbn [flat_map].
  rewrite Hc, IH by done. simpl. by rewrite ascii_N_embedding.
Qed.

Lemma encode_element_encodable (x : pyobj) :
  encodable x = true → encode_element x = Ok (encoded x).
Proof.
  destruct x; simpl; try done.
  intros H. unfold decode_ascii. rewrite H. simpl. by rewrite encode_ascii_bytes.
Qed.

Lemma mapM_encode_element (l : list pyobj) :
  forallb encodable l = true → mapM encode_element l = Ok (encoded <$> l).
Proof.
  induction l as [|x l IH]; simpl; [done|].
  intros [Hx Hl]%andb_prop.
  rewrite encode_element_encodable by done. simpl. by rewrite IH.
Qed.

Lemma encodable_text_or_none (l : list pyobj) :
  forallb encodable l = true →
  forallb (λ x, is_None x || is_string_types x) l = true.
Proof.
  induction l as [|x l IH]; simpl; [done|].
  intros [Hx Hl]%andb_prop. rewrite IH by done.
  by destruct x.
Qed.

Lemma fixed_width_le (w : nat) (s : list ascii) :
  (length s ≤ w)%nat → fixed_width w s = s ++ replicate (w - length s) NUL.
Proof. intros H. unfold fixed_width. by rewrite take_ge. Qed.

Lemma length_fixed_width (w : nat) (s : list ascii) : length (fixed_width w s) = w.
Proof.
  unfold fixed_width. rewrite length_app, length_take, length_replicate. lia.
Qed.

Lemma max_list_bound (l : list nat) (n : nat) : n ∈ l → (n ≤ max_list l)%nat.
Proof.
  induction l as [|m l IH]; simpl.
  - by intros ?%elem_of_nil.
  - intros [->|H]%elem_of_cons; [lia|]. specialize (IH H). lia.
Qed.

Lemma rstrip_nul_cons (c : ascii) (s : list ascii) :
  rstrip_nul (c :: s) =
    if bool_decide (c = NUL) && bool_decide (rstrip_nul s = []) then [] else c :: rstrip_nul s.
Proof. done. Qed.

Lemma rstrip_nul_replicate (k : nat) : rstrip_nul (replicate k NUL) = [].
Proof.
  induction k as [|k IH]; [done|].
  simpl replicate. rewrite rstrip_nul_cons, IH. done.
Qed.

Lemma rstrip_nul_padding (s : list ascii) (k : nat) :
  rstrip_nul (s ++ replicate k NUL) = rstrip_nul s.
Proof.
  induction s as [|c s IH]; simpl app.
  - apply rstrip_nul_replicate.
  - by rewrite !rstrip_nul_cons, IH.
Qed.

Lemma rstrip_nul_id (s : list ascii) : last s ≠ Some NUL → rstrip_nul s = s.
Proof.
  induction s as [|c s IH]; [done|].
  intros H. rewrite rstrip_nul_cons.
  destruct s as [|c' s].
  - simpl in *. rewrite bool_decide_eq_false_2; [done|congruence].
  - rewrite IH by (by rewrite last_cons_cons in H).
    rewrite (bool_decide_eq_false_2 (_ :: _ = [])) by done.
    by rewrite andb_false_r.
Qed.

Lemma rstrip_nul_app_cons (s : list ascii) (c : ascii) (t : list ascii) :
  c ≠ NUL → rstrip_nul (s ++ c :: t) = s ++ c :: rstrip_nul t.
Proof.
  intros Hc. induction s as [|a s IH]; simpl app.
  - rewrite rstrip_nul_cons. by rewrite bool_decide_eq_false_2.
  - rewrite rstrip_nul_cons, IH.
    rewrite (bool_decide_eq_false_2 (_ ++ _ :: _ = [])); [by rewrite andb_false_r|].
    by destruct s.
Qed.

(** ** Encoding *)

(** C7.  Encoding [None] and encoding [[]] both store, under a free name,
    the same dataset: of dtype ['S1'], with the null dataspace and no row;
    and reading a dataset with the null dataspace gives []. *)
Theorem create_read_empty (group : gmap string dataset) (name : string) :
  group !! name = None →
  create_hdf5_string_dataset group name PyNone
    = (Ok (), <[name := Dataset 1 None []]> group)
  ∧ create_hdf5_string_dataset group name (PyList [])
    = (Ok (), <[name := Dataset 1 None []]> group)
  ∧ ∀ ds, shape ds = None → read_hdf5_string_dataset ds = Ok [].
Proof.
  intros Hfree. split_and!.
  - simpl. by rewrite create_dataset_fresh.
  - simpl. by rewrite create_dataset_fresh.
  - intros ds Hds. unfold read_hdf5_string_dataset. by rewrite Hds.
Qed.

Lemma create_read_empty_witness :
  create_hdf5_string_dataset ∅ "barcodes" PyNone
    = (Ok (), <["barcodes"%string := Dataset 1 None []]> ∅)
  ∧ create_hdf5_string_dataset ∅ "barcodes" (PyList [])
    = (Ok (), <["barcodes"%string := Dataset 1 None []]> ∅)
  ∧ ∀ ds, shape ds = None → read_hdf5_string_dataset ds = Ok [].
Proof. apply (create_read_empty ∅ "barcodes"). reflexivity. Defined.

(** C6.  A list with an element that is neither [None] nor a string fails
    the assertion, and the group is left as it was. *)
Theorem create_rejects_non_text (group : gmap string dataset) (name : string)
    (l : list pyobj) (x : pyobj) :
  x ∈ l → is_None x = false → is_string_types x = false →
  create_hdf5_string_dataset group name (PyList l) = (Raise AssertionError, group).
Proof.
  intros Hin Hnone Hstr.
  assert (forallb (λ x, is_None x || is_string_types x) l = false) as Hall.
  { apply not_true_is_false. intros Hall.
    rewrite forallb_forall in Hall.
    apply list_elem_of_In, Hall in Hin. by rewrite Hnone, Hstr in Hin. }
  destruct l as [|y l]; [by apply elem_of_nil in Hin|].
  cbv beta iota delta [create_hdf5_string_dataset]. by rewrite Hall.
Qed.

Lemma create_rejects_non_text_witness :
  create_hdf5_string_dataset ∅ "barcodes" (PyList [PyUnicode (u "AAAC"); PyInt 7])
    = (Raise AssertionError, ∅).
Proof.
  apply (create_rejects_non_text ∅ "barcodes" _ (PyInt 7)); [|reflexivity..].
  apply list_elem_of_In. simpl. auto.
Defined.

(** What is stored for a non-empty list of elements that are [None],
    [unicode], or [str] of ASCII bytes: one row per element; [None] is
    stored as the empty string, a [str] as its bytes, a [unicode] with each
    code point below 128 as that byte and any other as [&#<code point>;];
    the width is the greatest length of these byte strings, or 1 when that
    is 0, and every row is its byte string followed by NULs up to the
    width. *)
Lemma create_stores_fixed_width (group : gmap string dataset) (name : string)
    (l : list pyobj) :
  l ≠ [] → group !! name = None → forallb encodable l = true →
  let m := max_list (length <$> (encoded <$> l)) in
  let w := if bool_decide (m = 0%nat) then 1%nat else m in
  create_hdf5_string_dataset group name (PyList l)
    = (Ok (), <[name := Dataset w (Some (length l)) (fixed_width w <$> (encoded <$> l))]> group)
  ∧ (∀ i x, l !! i = Some x →
       (fixed_width w <$> (encoded <$> l)) !! i
         = Some (encoded x ++ replicate (w - length (encoded x)) NUL)
       ∧ (length (encoded x) ≤ w)%nat)
  ∧ encoded PyNone = []
  ∧ (∀ s, encoded (PyStr s) = s)
  ∧ (∀ s, encoded (PyUnicode s)
          = flat_map (λ c, if c <? 128 then [ascii_of_N c]
                           else b "&#" ++ decimal c ++ b ";") s).
Proof.
  intros Hne Hfree Henc m w. split_and!; try done.
  - destruct l as [|x l]; [done|].
    cbv beta iota delta [create_hdf5_string_dataset].
    rewrite encodable_text_or_none by done. cbn [negb].
    rewrite mapM_encode_element by done.
    cbv zeta. rewrite create_dataset_fresh by done.
    by rewrite length_fmap.
  - intros i x Hx.
    assert (length (encoded x) ≤ w)%nat as Hle.
    { assert (length (encoded x) ≤ m)%nat.
      { apply max_list_bound. apply list_elem_of_fmap. exists (encoded x).
        split; [done|]. apply list_elem_of_fmap. exists x. split; [done|].
        by eapply list_elem_of_lookup_2. }
      subst w. case_bool_decide; lia. }
    split; [|done].
    rewrite !list_lookup_fmap, Hx. simpl. by rewrite fixed_width_le.
Qed.

Example create_stores_fixed_width_example :
  create_hdf5_string_dataset ∅ "ids" (PyList [PyUnicode [233; 97]; PyNone; PyStr (b "xyz")])
    = (Ok (), <["ids"%string :=
         Dataset 7 (Some 3%nat) [b "&#233;a"; replicate 7 NUL; b "xyz" ++ replicate 4 NUL]]> ∅).
Proof.
  pose proof (create_stores_fixed_width ∅ "ids"
    [PyUnicode [233; 97]; PyNone; PyStr (b "xyz")]) as H.
  destruct H as [H _]; [done|reflexivity|reflexivity|].
  exact H.
Qed.

(** C8.  A [str] is a text for the assertion, but one with a byte above
    127 is not encoded: the runtime decodes it as ASCII first, which fails,
    and nothing is stored. *)
Theorem create_str_non_ascii_raises :
  forallb (λ x, is_None x || is_string_types x) [PyStr [ascii_of_N 200]] = true
  ∧ create_hdf5_string_dataset ∅ "ids" (PyList [PyStr [ascii_of_N 200]])
    = (Raise UnicodeDecodeError, ∅).
Proof. split; reflexivity. Qed.

(** ** Decoding *)

Lemma mapM_fmap_Ok {A B C} (f : B → result C) (h : A → B) (g : A → C) (l : list A) :
  (∀ x, x ∈ l → f (h x) = Ok (g x)) → mapM f (h <$> l) = Ok (g <$> l).
Proof.
  induction l as [|x l IH]; intros H; [done|].
  rewrite fmap_cons. simpl. rewrite (H x) by apply list_elem_of_here. simpl.
  rewrite IH; [done|]. intros y Hy. apply H. by apply list_elem_of_further.
Qed.

Lemma re_sub_no_reference (s : list N) (fuel : nat) :
  has_reference s = false → re_sub fuel s = Ok s.
Proof.
  revert fuel. induction s as [|c s IH]; intros fuel H; [by destruct fuel|].
  destruct fuel as [|fuel]; [done|].
  simpl in H. apply orb_false_elim in H as [Hc Hs].
  simpl. rewrite (IH fuel Hs). simpl.
  destruct (c =? AMP) eqn:Hamp; [|done].
  simpl in Hc. apply bool_decide_eq_false in Hc.
  destruct (match_entity s) as [[g rest]|]; [|done].
  by destruct Hc.
Qed.

Lemma unescape_no_reference (s : list N) : has_reference s = false → unescape s = Ok s.
Proof.
  intros H. unfold unescape. destruct (negb _); [done|]. by apply re_sub_no_reference.
Qed.

Lemma decode_ascii_ignore_ascii (s : list N) :
  forallb (λ c, c <? 128) s = true → decode_ascii_ignore (ascii_of_N <$> s) = s.
Proof.
  unfold decode_ascii_ignore. induction s as [|c s IH]; [done|].
  intros [Hc Hs]%andb_prop. apply N.ltb_lt in Hc.
  rewrite fmap_cons, filter_cons_True by (rewrite N_ascii_embedding; lia).
  rewrite fmap_cons, IH by done. rewrite N_ascii_embedding; [done|lia].
Qed.

Lemma encoded_plain (x : pyobj) :
  is_string_types x = true → forallb (λ c, c <? 128) (text_of x) = true →
  encodable x = true ∧ encoded x = ascii_of_N <$> text_of x.
Proof.
  destruct x as [|s|s| | |]; try done; simpl; intros _ H.
  - split.
    + clear -H. induction s as [|c s IH]; [done|]. simpl in *.
      apply andb_prop in H as [-> ?]. auto.
    + clear. induction s as [|c s IH]; [done|].
      rewrite !fmap_cons, ascii_N_embedding. by f_equal.
  - split; [done|].
    induction s as [|c s IH]; [done|]. simpl in *.
    apply andb_prop in H as [-> ?]. simpl. f_equal. auto.
Qed.

Lemma last_ascii_of_N (s : list N) :
  forallb (λ c, c <? 128) s = true → last s ≠ Some 0 →
  last (ascii_of_N <$> s) ≠ Some NUL.
Proof.
  intros Hs Hlast. rewrite fmap_last.
  destruct (last s) as [c|] eqn:Hc; [|done]. simpl.
  intros [= Heq]. apply Hlast. f_equal.
  assert (c < 128) as Hlt.
  { apply last_Some_elem_of in Hc. rewrite forallb_forall in Hs.
    apply N.ltb_lt, Hs. by apply list_elem_of_In. }
  rewrite <-(N_ascii_embedding c) by lia. by rewrite Heq.
Qed.

Lemma read_row_plain (x : pyobj) (w : nat) :
  plain_ascii_text x = true → (length (encoded x) ≤ w)%nat →
  encodable x = true
  ∧ unescape (decode_ascii_ignore (rstrip_nul (fixed_width w (encoded x)))) = Ok (text_of x).
Proof.
  unfold plain_ascii_text, plain_ascii.
  intros [Hstr [[Hascii Href]%andb_prop Hlast]%andb_prop]%andb_prop Hw.
  apply negb_true_iff in Href. apply bool_decide_eq_true in Hlast.
  destruct (encoded_plain x Hstr Hascii) as [Henc Heq]. split; [done|].
  rewrite fixed_width_le, rstrip_nul_padding by done.
  rewrite Heq, rstrip_nul_id by by apply last_ascii_of_N.
  rewrite decode_ascii_ignore_ascii by done.
  by apply unescape_no_reference.
Qed.

Lemma mapM_make_utf8 (l : list (list N)) :
  mapM make_utf8 (PyUnicode <$> l) = Ok (PyUnicode <$> l).
Proof.
  by apply mapM_fmap_Ok.
Qed.

Lemma py_eq_text (x : pyobj) :
  is_string_types x = true → forallb (λ c, c <? 128) (text_of x) = true →
  py_eq (PyUnicode (text_of x)) x = true.
Proof.
  destruct x as [|s|s| | |]; try done; simpl; intros _ H.
  - rewrite bool_decide_eq_true_2 by done. rewrite andb_true_r.
    clear -H. induction s as [|c s IH]; [done|]. simpl in *.
    apply andb_prop in H as [-> ?]. auto.
  - by apply bool_decide_eq_true_2.
Qed.

Lemma py_eq_list_cons (x y : pyobj) (l k : list pyobj) :
  py_eq (PyList (x :: l)) (PyList (y :: k)) = py_eq x y && py_eq (PyList l) (PyList k).
Proof. done. Qed.

(** C1, as the code has it.  A list of text values of 7-bit ASCII content
    comes back equal from an encode under a free name followed by a decode,
    when no value holds a reference (an [&] at which the pattern of
    [unescape] matches) and none ends with the character NUL. *)
Theorem roundtrip_plain_ascii (group : gmap string dataset) (name : string)
    (x : list pyobj) :
  group !! name = None → forallb plain_ascii_text x = true →
  ∃ ds y,
    create_hdf5_string_dataset group name (PyList x) = (Ok (), <[name := ds]> group)
    ∧ read_hdf5_string_dataset ds = Ok y
    ∧ y = PyUnicode <$> (text_of <$> x)
    ∧ py_eq (PyList y) (PyList x) = true.
Proof.
  intros Hfree Hplain.
  destruct (decide (x = [])) as [->|Hne].
  { exists (Dataset 1 None []), []. simpl. by rewrite create_dataset_fresh. }
  assert (∀ v, v ∈ x → plain_ascii_text v = true) as Hall.
  { intros v Hv. rewrite forallb_forall in Hplain. by apply Hplain, list_elem_of_In. }
  assert (forallb encodable x = true) as Henc.
  { apply forallb_forall. intros v Hv%list_elem_of_In.
    by apply (read_row_plain v (length (encoded v))); auto. }
  destruct (create_stores_fixed_width group name x Hne Hfree Henc)
    as (Hcreate & Hrows & _).
  set (w := if bool_decide (max_list (length <$> (encoded <$> x)) = 0%nat)
            then 1%nat else max_list (length <$> (encoded <$> x))) in *.
  eexists _, _. split; [exact Hcreate|].
  split_and!; [|done|].
  - unfold read_hdf5_string_dataset. cbn [shape rows].
    rewrite <-!list_fmap_compose.
    rewrite (mapM_fmap_Ok _ _ text_of).
    + simpl. by rewrite mapM_make_utf8, <-list_fmap_compose.
    + intros v Hv. simpl.
      destruct (list_elem_of_lookup_1 _ _ Hv) as [i Hi].
      destruct (Hrows i v Hi) as [_ Hle].
      by apply read_row_plain; auto.
  - clear -Hall. induction x as [|v x IH]; [done|].
    rewrite !fmap_cons, py_eq_list_cons.
    rewrite IH by (intros; apply Hall; by apply list_elem_of_further).
    rewrite andb_true_r.
    specialize (Hall v (list_elem_of_here _ _)).
    unfold plain_ascii_text, plain_ascii in Hall.
    apply andb_prop in Hall as [Hstr [[Hascii _]%andb_prop _]%andb_prop].
    by apply py_eq_text.
Qed.

Lemma roundtrip_plain_ascii_witness :
  ∃ ds y,
    create_hdf5_string_dataset ∅ "ids" (PyList [PyStr (b "R&D"); PyUnicode (u "AAAC-1")])
      = (Ok (), <["ids"%string := ds]> ∅)
    ∧ read_hdf5_string_dataset ds = Ok y
    ∧ y = PyUnicode <$> (text_of <$> [PyStr (b "R&D"); PyUnicode (u "AAAC-1")])
    ∧ py_eq (PyList y) (PyList [PyStr (b "R&D"); PyUnicode (u "AAAC-1")]) = true.
Proof. apply (roundtrip_plain_ascii ∅ "ids"); reflexivity. Defined.

(** C1, as the claim has it, fails: the text [&#65;] is 7-bit ASCII, is
    stored as it is, and is read back as [A]. *)
Lemma roundtrip_reference_fails :
  forallb (λ c, c <? 128) (u "&#65;") = true
  ∧ create_hdf5_string_dataset ∅ "ids" (PyList [PyUnicode (u "&#65;")])
    = (Ok (), <["ids"%string := Dataset 5 (Some 1%nat) [b "&#65;"]]> ∅)
  ∧ read_hdf5_string_dataset (Dataset 5 (Some 1%nat) [b "&#65;"]) = Ok [PyUnicode (u "A")]
  ∧ py_eq (PyList [PyUnicode (u "A")]) (PyList [PyUnicode (u "&#65;")]) = false.
Proof. split_and!; reflexivity. Qed.

(** ** References: the pattern and the substitution *)

Lemma match_body_word (t : list N) : match_body t = true → forallb is_word t = true.
Proof.
  unfold match_body. intros [[_ H]%andb_prop|[_ H]%andb_prop]%orb_prop; [|done].
  apply forallb_forall. intros c Hc. rewrite forallb_forall in H.
  specialize (H c Hc). unfold is_hexdigit, is_word in *.
  repeat (apply orb_prop in H as [H|H]); rewrite ?H, ?orb_true_r; try done.
  - apply andb_prop in H as [H1 H2]. rewrite H1. simpl.
    apply N.leb_le in H2. replace (c <=? 122) with true by (symmetry; apply N.leb_le; lia).
    by rewrite orb_true_r.
  - apply andb_prop in H as [H1 H2]. rewrite H1. simpl.
    apply N.leb_le in H2. replace (c <=? 90) with true by (symmetry; apply N.leb_le; lia).
    by rewrite !orb_true_r.
Qed.

Lemma is_x_word (c : N) : is_x c = true → is_word c = true.
Proof.
  unfold is_x. intros [->%N.eqb_eq| ->%N.eqb_eq]%orb_prop; reflexivity.
Qed.

Lemma match_x_word (t : list N) : match_x t = true → forallb is_word t = true.
Proof.
  destruct t as [|c t]; [apply match_body_word|].
  unfold match_x. intros [[Hc Ht]%andb_prop|H]%orb_prop; [|by apply match_body_word].
  simpl. by rewrite is_x_word, match_body_word.
Qed.

Lemma match_group_no_amp (t : list N) : match_group t = true → AMP ∉ t.
Proof.
  assert (∀ t, forallb is_word t = true → AMP ∉ t) as Hword.
  { intros t' H Hin%list_elem_of_In. rewrite forallb_forall in H.
    by specialize (H _ Hin). }
  destruct t as [|c t]; [by intros _ ?%elem_of_nil|].
  unfold match_group.
  intros [[Hc Ht%match_x_word]%andb_prop|H%match_x_word]%orb_prop; [|by apply Hword].
  apply N.eqb_eq in Hc as ->. apply not_elem_of_cons. split; [done|by apply Hword].
Qed.

Lemma split_semicolon_app (s x : list N) :
  split_semicolon (s ++ x) =
    match split_semicolon s with
    | Some (t, r) => Some (t, r ++ x)
    | None =>
      match split_semicolon x with
      | Some (t, r) => Some (s ++ t, r)
      | None => None
      end
    end.
Proof.
  induction s as [|c s IH]; simpl.
  - by destruct (split_semicolon x) as [[? ?]|].
  - destruct (c =? SEMICOLON); [done|]. rewrite IH.
    destruct (split_semicolon s) as [[? ?]|]; [done|].
    by destruct (split_semicolon x) as [[? ?]|].
Qed.

Lemma split_semicolon_length (s t r : list N) :
  split_semicolon s = Some (t, r) → (length r < length s)%nat.
Proof.
  revert t. induction s as [|c s IH]; intros t; simpl; [done|].
  destruct (c =? SEMICOLON).
  - intros [= _ ->]. lia.
  - destruct (split_semicolon s) as [[t' r']|]; [|done].
    intros [= _ <-]. specialize (IH _ eq_refl). lia.
Qed.

Lemma split_semicolon_at (t r : list N) :
  SEMICOLON ∉ t → split_semicolon (t ++ SEMICOLON :: r) = Some (t, r).
Proof.
  induction t as [|c t IH]; intros H; simpl; [done|].
  apply not_elem_of_cons in H as [Hc Ht].
  destruct (c =? SEMICOLON) eqn:E; [by apply N.eqb_eq in E|].
  by rewrite IH.
Qed.

Lemma match_entity_length (s g r : list N) :
  match_entity s = Some (g, r) → (length r < length s)%nat.
Proof.
  unfold match_entity. destruct (split_semicolon s) as [[t r']|] eqn:E; [|done].
  destruct (match_group t); [|done]. intros [= _ <-].
  by eapply split_semicolon_length.
Qed.

(** A match never runs over an [&]. *)
Lemma match_entity_app_amp (s r : list N) :
  match_entity (s ++ AMP :: r) =
    match match_entity s with
    | Some (g, r') => Some (g, r' ++ AMP :: r)
    | None => None
    end.
Proof.
  unfold match_entity. rewrite split_semicolon_app.
  destruct (split_semicolon s) as [[t r']|].
  - by destruct (match_group t).
  - destruct (split_semicolon (AMP :: r)) as [[t r']|] eqn:E; [|done].
    destruct (match_group (s ++ t)) eqn:Hg; [|done].
    apply match_group_no_amp in Hg. exfalso. apply Hg.
    simpl in E. destruct (split_semicolon r) as [[t' r'']|]; [|done].
    injection E as <- _. apply elem_of_app. right. apply list_elem_of_here.
Qed.

Lemma re_sub_fuel (n m : nat) (s : list N) :
  (length s ≤ n)%nat → (length s ≤ m)%nat → re_sub n s = re_sub m s.
Proof.
  revert m s. induction n as [|n IH]; intros m s Hn Hm.
  - destruct s; [by destruct m|simpl in Hn; lia].
  - destruct s as [|c s]; [by destruct m|].
    destruct m as [|m]; [simpl in Hm; lia|].
    simpl in Hn, Hm. simpl.
    rewrite (IH m s) by lia.
    destruct (c =? AMP); [|done].
    destruct (match_entity s) as [[g r]|] eqn:E; [|done].
    apply match_entity_length in E. by rewrite (IH m r) by lia.
Qed.

Lemma re_sub_app_amp (k : nat) (s r : list N) (n : nat) :
  (length s ≤ k)%nat → (length (s ++ AMP :: r) ≤ n)%nat →
  re_sub n (s ++ AMP :: r) =
    (x ← re_sub (length s) s; y ← re_sub (S (length r)) (AMP :: r); Ok (x ++ y)).
Proof.
  revert s n. induction k as [|k IH]; intros s n Hk Hn;
    rewrite length_app in Hn; simpl in Hn.
  - destruct s; [|simpl in Hk; lia]. simpl app.
    rewrite (re_sub_fuel n (S (length r))) by (simpl in *; lia).
    simpl. by destruct (match _ with Some _ => _ | None => _ end).
  - destruct s as [|c s].
    { apply (IH []); simpl in *; lia. }
    destruct n as [|n]; [simpl in Hn; lia|].
    simpl in Hk, Hn. simpl app. simpl length.
    assert (∀ z : N,
      (t ← re_sub n (s ++ AMP :: r); Ok (z :: t)) =
      (x ← (t ← re_sub (length s) s; Ok (z :: t));
       y ← re_sub (S (length r)) (AMP :: r); Ok (x ++ y))) as Hkeep.
    { intros z. rewrite (IH s n) by (rewrite ?length_app; simpl; lia).
      destruct (re_sub (length s) s); [|done]. simpl.
      by destruct (match _ with Some _ => _ | None => _ end). }
    cbn [re_sub]. destruct (c =? AMP); [|apply Hkeep].
    rewrite match_entity_app_amp.
    destruct (match_entity s) as [[g r']|] eqn:E; [|apply Hkeep].
    apply match_entity_length in E.
    rewrite (IH r' n) by (rewrite ?length_app; simpl; lia).
    rewrite (re_sub_fuel (length s) (length r') r') by lia.
    destruct (replaceEntities g); [|done]. simpl.
    destruct (re_sub (length r') r'); [|done]. simpl.
    destruct (match _ with Some _ => _ | None => _ end); [|done].
    simpl. by rewrite app_assoc.
Qed.

Lemma has_reference_no_amp (s : list N) :
  existsb (λ c, c =? AMP) s = false → has_reference s = false.
Proof.
  induction s as [|c s IH]; simpl; [done|].
  intros [-> Hs]%orb_false_elim. by rewrite IH.
Qed.

Lemma unescape_re_sub (s : list N) (n : nat) :
  (length s ≤ n)%nat → unescape s = re_sub n s.
Proof.
  intros Hn. unfold unescape.
  destruct (existsb _ s) eqn:E; simpl.
  - by apply re_sub_fuel.
  - symmetry. by apply re_sub_no_reference, has_reference_no_amp.
Qed.

(** ** Character references written by the encoder *)

Lemma uint_digits (d : Decimal.uint) :
  forallb is_digit
    (N_of_ascii <$> list_ascii_of_string (DecimalString.NilEmpty.string_of_uint d)) = true.
Proof. induction d; simpl; auto. Qed.

Lemma decimal_digits (c : N) : forallb is_digit (N_of_ascii <$> decimal c) = true.
Proof.
  unfold decimal, DecimalString.NilZero.string_of_uint.
  destruct (N.to_uint c) eqn:E; try apply uint_digits. reflexivity.
Qed.

Lemma to_uint_nonnil (c : N) : N.to_uint c ≠ Decimal.Nil.
Proof. destruct c; [done|apply DecimalPos.Unsigned.to_uint_nonnil]. Qed.

Lemma decimal_cons (c : N) : ∃ d ds, N_of_ascii <$> decimal c = d :: ds ∧ is_digit d = true.
Proof.
  pose proof (decimal_digits c) as H.
  destruct (N_of_ascii <$> decimal c) as [|d ds] eqn:E.
  - exfalso. apply fmap_nil_inv in E. unfold decimal in E.
    pose proof (to_uint_nonnil c) as Hnil.
    unfold DecimalString.NilZero.string_of_uint in E.
    destruct (N.to_uint c); simpl in E; try done.
  - exists d, ds. split; [done|]. simpl in H. by apply andb_prop in H as [? _].
Qed.

Lemma py_int10_decimal (c : N) : py_int10 (N_of_ascii <$> decimal c) = Some c.
Proof.
  unfold py_int10. rewrite decimal_digits.
  replace (to_string (N_of_ascii <$> decimal c))
    with (DecimalString.NilZero.string_of_uint (N.to_uint c)).
  - rewrite DecimalString.NilZero.usu by apply to_uint_nonnil.
    simpl. by rewrite DecimalN.Unsigned.of_to.
  - unfold to_string, decimal. rewrite <-list_fmap_compose.
    rewrite (list_fmap_ext (ascii_of_N ∘ N_of_ascii) id)
      by (intros; apply ascii_N_embedding).
    by rewrite list_fmap_id, string_of_list_ascii_of_string.
Qed.

Lemma match_entity_charref (c : N) (r : list N) :
  match_entity (HASH :: (N_of_ascii <$> decimal c) ++ SEMICOLON :: r)
    = Some (HASH :: (N_of_ascii <$> decimal c), r).
Proof.
  pose proof (decimal_digits c) as Hd.
  unfold match_entity. rewrite app_comm_cons.
  rewrite (split_semicolon_at (HASH :: (N_of_ascii <$> decimal c)) r).
  - destruct (decimal_cons c) as (d & ds & E & _). rewrite E in *.
    replace (match_group (HASH :: d :: ds)) with true; [done|].
    symmetry. unfold match_group, match_x, match_body.
    rewrite N.eqb_refl. cbn [andb].
    rewrite (bool_decide_eq_true_2 (d :: ds ≠ [])) by done. cbn [andb].
    replace (forallb is_hexdigit (d :: ds)) with true; [by rewrite !orb_true_r|].
    symmetry. apply forallb_forall. intros x Hx. rewrite forallb_forall in Hd.
    unfold is_hexdigit. by rewrite (Hd x Hx).
  - apply not_elem_of_cons. split; [done|].
    intros Hin%list_elem_of_In. rewrite forallb_forall in Hd. by specialize (Hd _ Hin).
Qed.

Lemma replaceEntities_charref (c : N) :
  c < 1114112 → replaceEntities (HASH :: (N_of_ascii <$> decimal c)) = Ok [c].
Proof.
  intros Hc. pose proof (py_int10_decimal c) as Hint.
  destruct (decimal_cons c) as (d & ds & E & Hd). rewrite E in *.
  unfold replaceEntities. rewrite N.eqb_refl.
  replace (is_x d) with false.
  - rewrite Hint. unfold unichr.
    by replace (c <? 1114112) with true by (symmetry; by apply N.ltb_lt).
  - unfold is_digit in Hd. apply andb_prop in Hd as [H1%N.leb_le H2%N.leb_le].
    unfold is_x. symmetry. apply orb_false_intro; apply N.eqb_neq; lia.
Qed.

Lemma re_sub_charref (c : N) (r : list N) (n : nat) :
  c < 1114112 →
  re_sub (S n) (AMP :: HASH :: (N_of_ascii <$> decimal c) ++ SEMICOLON :: r)
    = (t ← re_sub n r; Ok (c :: t)).
Proof.
  intros Hc. cbn [re_sub]. rewrite N.eqb_refl.
  rewrite match_entity_charref, replaceEntities_charref by done.
  simpl. by destruct (re_sub n r).
Qed.

Lemma encode_app (s t : list N) :
  encode_ascii_xmlcharrefreplace (s ++ t)
    = encode_ascii_xmlcharrefreplace s ++ encode_ascii_xmlcharrefreplace t.
Proof. apply flat_map_app. Qed.

Lemma encode_cons_non_ascii (c : N) (s : list N) :
  128 ≤ c →
  encode_ascii_xmlcharrefreplace (c :: s)
    = b "&#" ++ decimal c ++ b ";" ++ encode_ascii_xmlcharrefreplace s.
Proof.
  intros Hc. unfold encode_ascii_xmlcharrefreplace. cbn [flat_map].
  replace (c <? 128) with false by (symmetry; apply N.ltb_ge; lia).
  unfold xmlcharref. by rewrite <-!app_assoc.
Qed.

Lemma decode_ascii_ignore_app (s t : list ascii) :
  decode_ascii_ignore (s ++ t) = decode_ascii_ignore s ++ decode_ascii_ignore t.
Proof. unfold decode_ascii_ignore. by rewrite filter_app, fmap_app. Qed.

Lemma decode_ascii_ignore_decimal (c : N) :
  decode_ascii_ignore (decimal c) = N_of_ascii <$> decimal c.
Proof.
  pose proof (decimal_digits c) as H. unfold decode_ascii_ignore.
  induction (decimal c) as [|a l IH]; [done|].
  simpl in H. apply andb_prop in H as [Ha Hl].
  rewrite filter_cons_True, fmap_cons, IH; [done..|].
  unfold is_digit in Ha. apply andb_prop in Ha as [_ Ha%N.leb_le]. lia.
Qed.

(** What is read of the bytes stored for a text with a code point [c] above
    127: the reference to [c], between what is read of the bytes before and
    of the bytes after. *)
Lemma decode_charref (x y : list ascii) (c : N) :
  decode_ascii_ignore (rstrip_nul (x ++ b "&#" ++ decimal c ++ b ";" ++ y))
    = decode_ascii_ignore x
      ++ AMP :: HASH :: (N_of_ascii <$> decimal c)
      ++ SEMICOLON :: decode_ascii_ignore (rstrip_nul y).
Proof.
  replace (x ++ b "&#" ++ decimal c ++ b ";" ++ y)
    with ((x ++ b "&#" ++ decimal c) ++ ";"%char :: y)
    by (by rewrite <-!app_assoc).
  rewrite rstrip_nul_app_cons by done.
  rewrite !decode_ascii_ignore_app, decode_ascii_ignore_decimal.
  rewrite <-!app_assoc. f_equal.
Qed.

Lemma unescape_charref (s t : list N) (c : N) :
  c < 1114112 →
  unescape (s ++ AMP :: HASH :: (N_of_ascii <$> decimal c) ++ SEMICOLON :: t)
    = (x ← unescape s; y ← unescape t; Ok (x ++ c :: y)).
Proof.
  intros Hc.
  rewrite (unescape_re_sub _ _ (Nat.le_refl _)).
  rewrite (re_sub_app_amp _ _ _ _ (Nat.le_refl _) (Nat.le_refl _)).
  rewrite <-(unescape_re_sub s) by done.
  rewrite (re_sub_charref c t _ Hc).
  rewrite <-(unescape_re_sub t) by (simpl; rewrite length_app; simpl; lia).
  destruct (unescape s) as [x|]; [|done].
  by destruct (unescape t).
Qed.

Lemma unescape_cons (c : N) (s : list N) :
  c ≠ AMP → unescape (c :: s) = (t ← unescape s; Ok (c :: t)).
Proof.
  intros Hc. rewrite (unescape_re_sub (c :: s) (S (length s))) by done.
  rewrite (unescape_re_sub s (length s)) by done.
  cbn [re_sub]. by replace (c =? AMP) with false by (symmetry; by apply N.eqb_neq).
Qed.

(** The references the encoder writes are the only ones in the bytes of a
    text without [&], and [unescape] turns each back into its character. *)
Lemma unescape_encode (s : list N) :
  AMP ∉ s → Forall (λ a, a < 1114112) s →
  unescape (decode_ascii_ignore (encode_ascii_xmlcharrefreplace s)) = Ok s.
Proof.
  induction s as [|c s IH]; [done|].
  intros [Hc Hs]%not_elem_of_cons [Hv Hvs]%Forall_cons.
  destruct (decide (c < 128)) as [Hlt|Hge].
  - unfold encode_ascii_xmlcharrefreplace. cbn [flat_map].
    replace (c <? 128) with true by (symmetry; by apply N.ltb_lt).
    change (decode_ascii_ignore ([ascii_of_N c] ++ ?l))
      with (decode_ascii_ignore (ascii_of_N c :: l)).
    unfold decode_ascii_ignore.
    rewrite filter_cons_True, fmap_cons by (rewrite N_ascii_embedding; lia).
    rewrite N_ascii_embedding by lia.
    rewrite unescape_cons by done.
    fold (decode_ascii_ignore (flat_map
      (λ c, if c <? 128 then [ascii_of_N c] else xmlcharref c) s)).
    fold (encode_ascii_xmlcharrefreplace s).
    by rewrite IH.
  - rewrite encode_cons_non_ascii by lia.
    rewrite !decode_ascii_ignore_app, decode_ascii_ignore_decimal.
    change (decode_ascii_ignore (b "&#")) with [AMP; HASH].
    change (decode_ascii_ignore (b ";")) with [SEMICOLON].
    change ([AMP; HASH] ++ ?l) with ([] ++ AMP :: HASH :: l).
    change ([SEMICOLON] ++ ?l) with (SEMICOLON :: l).
    rewrite unescape_charref by done.
    by rewrite IH.
Qed.

Lemma last_encode (s : list N) :
  last s ≠ Some 0 → last (encode_ascii_xmlcharrefreplace s) ≠ Some NUL.
Proof.
  induction s as [|c s _] using rev_ind; [done|].
  rewrite last_snoc, encode_app. intros Hc.
  unfold encode_ascii_xmlcharrefreplace at 2. cbn [flat_map].
  rewrite app_nil_r.
  destruct (c <? 128) eqn:E.
  - rewrite last_snoc. intros [= Heq]. apply Hc. f_equal.
    apply N.ltb_lt in E. rewrite <-(N_ascii_embedding c) by lia. by rewrite Heq.
  - unfold xmlcharref. change (b ";") with [";"%char].
    by rewrite !app_assoc, last_snoc.
Qed.






(** ** JSON values: induction and equality *)

Lemma json_size_list (x : json) (l : list json) :
  x ∈ l → (json_size x < json_size (JList l))%nat.
Proof.
  induction l as [|y l IH]; [by intros ?%elem_of_nil|].
  intros [->|H]%elem_of_cons; simpl in *; [lia|].
  specialize (IH H). lia.
Qed.

Lemma json_size_obj (m : gmap string json) (k : string) (v : json) :
  m !! k = Some v → (json_size v < json_size (JObj m))%nat.
Proof.
  intros H.
  change (json_size (JObj m)) with (S (map_fold (λ _ x acc, json_size x + acc) 0 m))%nat.
  rewrite (map_fold_delete_L _ _ k v m); [lia| |done].
  intros. lia.
Qed.

Lemma json_ind' (P : json → Prop) :
  P JNull → (∀ v, P (JBool v)) → (∀ n, P (JInt n)) → (∀ s, P (JStr s)) →
  (∀ l, Forall P l → P (JList l)) →
  (∀ m, map_Forall (λ _, P) m → P (JObj m)) →
  ∀ v, P v.
Proof.
  intros Hnull Hbool Hint Hstr Hlist Hobj v.
  remember (json_size v) as n eqn:Hn. revert v Hn.
  induction n as [n IH] using lt_wf_ind. intros v ->.
  destruct v as [| | | |l|m]; auto.
  - apply Hlist, Forall_forall. intros x Hx.
    by eapply IH; [apply json_size_list|].
  - apply Hobj. intros k x Hx.
    by eapply IH; [eapply json_size_obj|].
Qed.

Lemma json_eq_list_cons (a c : json) (l k : list json) :
  json_eq (JList (a :: l)) (JList (c :: k)) = json_eq a c && json_eq (JList l) (JList k).
Proof. done. Qed.

Lemma json_eq_obj (m m' : gmap string json) :
  json_eq (JObj m) (JObj m') =
    bool_decide (size m = size m')
    && map_fold (λ k v acc,
         acc && match m' !! k with Some w => json_eq v w | None => false end) true m.
Proof. done. Qed.

Lemma map_fold_and (g : string → json → bool) (m : gmap string json) :
  map_fold (λ k v acc, acc && g k v) true m = true
  ↔ ∀ k v, m !! k = Some v → g k v = true.
Proof.
  apply (map_fold_weak_ind (λ r m, r = true ↔ ∀ k v, m !! k = Some v → g k v = true)).
  - split; [|done]. by intros _ k v ?%lookup_empty_Some.
  - intros i x m' r Hi IH. rewrite andb_true_iff, IH. split.
    + intros [Hm Hx] k v [[-> ->]|[_ Hk]]%lookup_insert_Some; auto.
    + intros H. split.
      * intros k v Hk. apply H. rewrite lookup_insert_ne; [done|]. congruence.
      * apply H, lookup_insert_eq.
Qed.

Lemma json_eq_refl (v : json) : json_eq v v = true.
Proof.
  induction v as [| | | |l IH|m IH] using json_ind'; simpl;
    try done; try by apply bool_decide_eq_true_2.
  - induction IH as [|x l Hx _ IHl]; [done|].
    change (json_eq (JList (x :: l)) (JList (x :: l)) = true).
    rewrite json_eq_list_cons, Hx. exact IHl.
  - change (json_eq (JObj m) (JObj m) = true).
    rewrite json_eq_obj, bool_decide_eq_true_2 by done.
    apply map_fold_and. intros k v Hk. rewrite Hk. by eapply IH.
Qed.

Lemma json_eq_obj_agree (m m' : gmap string json) :
  json_eq (JObj m) (JObj m') = true → agree m m' → m = m'.
Proof.
  rewrite json_eq_obj. intros [Hsize Hfold]%andb_prop Hagree.
  apply bool_decide_eq_true in Hsize.
  apply map_subseteq_size_eq; [|lia].
  apply map_subseteq_spec. intros k v Hk.
  pose proof (proj1 (map_fold_and _ m) Hfold k v Hk) as H. simpl in H.
  destruct (m' !! k) as [w|] eqn:Hw; [|done].
  by rewrite (Hagree k v w Hk Hw).
Qed.

(** ** Compatible values *)

Lemma agree_refl (a : gmap string json) : agree a a.
Proof. intros k v w Hv Hw. congruence. Qed.

Lemma compatible_cases (o v : json) :
  compatible o v →
  (∃ a c, o = JObj a ∧ v = JObj c ∧ agree a c) ∨ (o = v ∧ ∀ a, o ≠ JObj a).
Proof.
  intros [->|H]; [|by left].
  destruct v as [| | | | |m]; try (by right).
  left. exists m, m. split_and!; [done..|apply agree_refl].
Qed.

Lemma joined_not_dict (o v : json) : (∀ a, o ≠ JObj a) → joined o v = o.
Proof. intros H. destruct v, o; try done. by destruct (H m0). Qed.







(** ** One key, one file *)

Lemma merge_item_new (merged : gmap string json) (key : string) (value : json) :
  merged !! key = None → merge_item merged key value = Ok (<[key := value]> merged).
Proof. intros H. unfold merge_item. by rewrite H. Qed.

Lemma merge_item_compatible (merged : gmap string json) (key : string) (old value : json) :
  merged !! key = Some old → compatible old value →
  merge_item merged key value = Ok (<[key := joined old value]> merged).
Proof.
  intros Hold Hc. unfold merge_item. rewrite Hold.
  destruct (json_eq old value) eqn:Heq.
  - f_equal. symmetry. apply insert_id. rewrite Hold. f_equal.
    apply compatible_cases in Hc as [(a & c & -> & -> & Hac)|[-> Hnd]];
      [|by rewrite joined_not_dict].
    apply json_eq_obj_agree in Heq as ->; [|done].
    simpl. f_equal. symmetry. apply (idemp_L (∪)).
  - apply compatible_cases in Hc as [(a & c & -> & -> & Hac)|[-> Hnd]]; [done|].
    by rewrite json_eq_refl in Heq.
Qed.

Lemma merge_dict_empty (merged : gmap string json) : merge_dict merged ∅ = merged.
Proof.
  apply map_eq. intros k. unfold merge_dict.
  rewrite lookup_union_with, lookup_empty. by destruct (merged !! k).
Qed.

Lemma merge_dict_insert (merged d : gmap string json) (key : string) (value : json) :
  d !! key = None →
  merge_dict (<[key := match merged !! key with
                       | Some old => joined old value
                       | None => value
                       end]> merged) d
  = merge_dict merged (<[key := value]> d).
Proof.
  intros Hd. apply map_eq. intros k. unfold merge_dict.
  rewrite !lookup_union_with.
  destruct (decide (k = key)) as [->|Hne].
  - rewrite !lookup_insert_eq, Hd. by destruct (merged !! key).
  - by rewrite !lookup_insert_ne.
Qed.

Lemma merge_items_compatible (items : list (string * json)) (merged : gmap string json) :
  NoDup items.*1 →
  (∀ k v o, (k, v) ∈ items → merged !! k = Some o → compatible o v) →
  merge_items merged items = Ok (merge_dict merged (list_to_map items)).
Proof.
  revert merged. induction items as [|[key value] items IH]; intros merged Hnd Hc.
  - simpl. by rewrite merge_dict_empty.
  - cbn [fmap list_fmap fst] in Hnd. apply NoDup_cons in Hnd as [Hkey Hnd].
    cbn [merge_items list_to_map foldr uncurry].
    assert (merge_item merged key value
            = Ok (<[key := match merged !! key with
                           | Some old => joined old value
                           | None => value
                           end]> merged)) as ->.
    { destruct (merged !! key) as [old|] eqn:Hold.
      - apply merge_item_compatible; [done|].
        eapply Hc; [apply list_elem_of_here|done].
      - by apply merge_item_new. }
    cbn [mbind result_bind]. rewrite IH; [|done|].
    + f_equal. apply merge_dict_insert. by apply not_elem_of_list_to_map.
    + intros k v o Hin Hk.
      assert (k ≠ key) as Hne.
      { intros ->. apply Hkey. apply list_elem_of_fmap. by exists (key, v). }
      rewrite lookup_insert_ne in Hk by done.
      eapply Hc; [by apply list_elem_of_further|done].
Qed.

Lemma merge_file_compatible (disk merged d : gmap string json) (filename : string) :
  disk !! filename = Some (JObj d) →
  (∀ k o v, merged !! k = Some o → d !! k = Some v → compatible o v) →
  merge_file disk merged filename = Ok (merge_dict merged d).
Proof.
  intros Hd Hc. unfold merge_file. rewrite Hd.
  rewrite merge_items_compatible.
  - by rewrite list_to_map_to_list.
  - apply NoDup_fst_map_to_list.
  - intros k v o Hin%elem_of_map_to_list Hk. eauto.
Qed.

Lemma merge_dict_empty_l (d : gmap string json) : merge_dict ∅ d = d.
Proof.
  apply map_eq. intros k. unfold merge_dict.
  rewrite lookup_union_with, lookup_empty. by destruct (d !! k).
Qed.


(** ** Every order of the files *)










(** ** Conflicts *)

Lemma merge_item_conflict (merged : gmap string json) (key : string) (old value : json) :
  merged !! key = Some old → conflict old value →
  merge_item merged key value = Raise (no_merge_strategy key value old).
Proof.
  intros Hold [Heq Hdict]. unfold merge_item. rewrite Hold, Heq.
  destruct value, old; try done. destruct Hdict. by eexists _, _.
Qed.

Lemma merge_item_conflict_or_ok (merged : gmap string json) (key : string) (value : json) :
  (∃ old, merged !! key = Some old ∧ conflict old value)
  ∨ (∃ merged', merge_item merged key value = Ok merged'
                ∧ ∀ k, k ≠ key → merged' !! k = merged !! k).
Proof.
  unfold merge_item. destruct (merged !! key) as [old|] eqn:Hold.
  - destruct (json_eq old value) eqn:Heq; [right; by eexists|].
    assert ((∃ dv dm, value = JObj dv ∧ old = JObj dm)
            ∨ ¬ (∃ dv dm, value = JObj dv ∧ old = JObj dm))
      as [(dv & dm & -> & ->)|Hdict].
    { destruct value, old; try (right; by intros (? & ? & ? & ?)).
      left. by eexists _, _. }
    + right. eexists. split; [done|]. intros k Hk. by rewrite lookup_insert_ne.
    + left. by exists old.
  - right. eexists. split; [done|]. intros k Hk. by rewrite lookup_insert_ne.
Qed.

Lemma merge_items_conflict (items : list (string * json)) (merged : gmap string json)
    (key : string) (value old : json) :
  NoDup items.*1 → (key, value) ∈ items →
  merged !! key = Some old → conflict old value →
  ∃ k v o, (k, v) ∈ items ∧ merged !! k = Some o ∧ conflict o v
           ∧ merge_items merged items = Raise (no_merge_strategy k v o).
Proof.
  revert merged. induction items as [|[k0 v0] items IH]; intros merged Hnd Hin Hold Hc.
  - by apply elem_of_nil in Hin.
  - cbn [fmap list_fmap fst] in Hnd. apply NoDup_cons in Hnd as [Hk0 Hnd].
    destruct (merge_item_conflict_or_ok merged k0 v0)
      as [(o & Ho & Hco)|(merged' & Hok & Hother)].
    + exists k0, v0, o. split_and!; [apply list_elem_of_here|done..|].
      cbn [merge_items]. by rewrite (merge_item_conflict merged k0 o v0).
    + apply elem_of_cons in Hin as [[= -> ->]|Hin].
      { rewrite (merge_item_conflict merged k0 old v0) in Hok; done. }
      assert (key ≠ k0) as Hne.
      { intros ->. apply Hk0. apply list_elem_of_fmap. by exists (k0, value). }
      destruct (IH merged' Hnd Hin) as (k & v & o & Hkv & Ho & Hco & Hraise);
        [by rewrite Hother|done|].
      exists k, v, o. split_and!; [by apply list_elem_of_further| |done|].
      * rewrite <-Hother; [done|]. intros ->. apply Hk0.
        apply list_elem_of_fmap. by exists (k0, v).
      * cbn [merge_items]. by rewrite Hok.
Qed.

(** What the [raise] statement raises: the [ValueError] with the four
    items when the key is ASCII and neither value is a string with a
    character outside ASCII, and the [UnicodeEncodeError] of [str] in
    every other case. *)
Lemma no_merge_strategy_cases (key : string) (value old : json) :
  no_merge_strategy key value old
  = if is_ascii key
       && match value with JStr s => is_ascii s | _ => true end
       && match old with JStr s => is_ascii s | _ => true end
    then ValueError (NoMergeStrategy key
           (match value with
            | JNull => TNoneType
            | JBool _ => TBool
            | JInt n => if bool_decide (- 9223372036854775808 ≤ n ≤ 9223372036854775807)%Z
                        then TInt else TLong
            | JStr _ => TUnicode
            | JList _ => TList
            | JObj _ => TDict
            end) value old)
    else UnicodeEncodeError.
Proof.
  unfold no_merge_strategy, str_json, str_unicode.
  destruct (is_ascii key); [|done].
  destruct value as [| | |s| |]; destruct old as [| | |t| |];
    try destruct (is_ascii s); try destruct (is_ascii t); done.
Qed.

(** Where C3 holds.  When the first two files give one top-level key two
    values that [==] tells apart and that are not both dictionaries, the
    merge raises what the [raise] statement raises for such a key of the
    second file, and no dictionary is returned: the [ValueError] carrying
    the key, the type of its value, the value, and the value of the first
    file, when that key is ASCII and neither value is a string with a
    character outside ASCII. *)
Lemma merge_conflict_raises (disk : gmap string json) (f1 f2 : string)
    (rest : list string) (d1 d2 : gmap string json) (key : string) (v1 v2 : json) :
  disk !! f1 = Some (JObj d1) → disk !! f2 = Some (JObj d2) →
  d1 !! key = Some v1 → d2 !! key = Some v2 →
  json_eq v1 v2 = false → ¬ (∃ m2 m1, v2 = JObj m2 ∧ v1 = JObj m1) →
  ∃ k v old,
    d2 !! k = Some v ∧ d1 !! k = Some old ∧ conflict old v
    ∧ merge_jsons_single_level disk (f1 :: f2 :: rest)
      = Raise (no_merge_strategy k v old)
    ∧ (is_ascii k = true → str_json v = Ok () → str_json old = Ok () →
       merge_jsons_single_level disk (f1 :: f2 :: rest)
       = Raise (ValueError (NoMergeStrategy k (type_of_json v) v old))).
Proof.
  intros Hd1 Hd2 Hv1 Hv2 Heq Hdict.
  destruct (merge_items_conflict (map_to_list d2) d1 key v2 v1)
    as (k & v & old & Hkv & Hold & Hc & Hraise).
  { apply NoDup_fst_map_to_list. }
  { by apply elem_of_map_to_list. }
  { done. }
  { by split. }
  assert (merge_jsons_single_level disk (f1 :: f2 :: rest)
          = Raise (no_merge_strategy k v old)) as Hmerge.
  { unfold merge_jsons_single_level. cbn [merge_files].
    rewrite (merge_file_compatible disk ∅ d1), merge_dict_empty_l; [|done|].
    - cbn [mbind result_bind]. unfold merge_file at 1. by rewrite Hd2, Hraise.
    - by intros ? ? ? ?%lookup_empty_Some. }
  exists k, v, old. split_and!; [by apply elem_of_map_to_list|done..|].
  intros Hk Hv Hold'. rewrite Hmerge. unfold no_merge_strategy, str_unicode.
  by rewrite Hk, Hv, Hold'.
Qed.

(** C3.  A conflict under a key that is not ASCII is not reported as the
    claim has it.  For two files that give the key [é] the values 5 and 6,
    the merge raises the [UnicodeEncodeError] of [str(key)], which the
    [raise] statement evaluates before there is a [ValueError]; likewise
    for a conflicting value that is a string with such a character.  For
    the key [a] it raises the [ValueError] with the key, the type [int],
    the value 6 and the value 5 of the first file. *)
Theorem merge_conflict_non_ascii :
  merge_jsons_single_level
    {[ "f1" := JObj {[ "é" := JInt 5 ]}; "f2" := JObj {[ "é" := JInt 6 ]} ]}%string
    [ "f1"; "f2" ]%string
  = Raise UnicodeEncodeError
  ∧ merge_jsons_single_level
      {[ "f1" := JObj {[ "a" := JInt 5 ]}; "f2" := JObj {[ "a" := JStr "é" ]} ]}%string
      [ "f1"; "f2" ]%string
    = Raise UnicodeEncodeError
  ∧ merge_jsons_single_level
      {[ "f1" := JObj {[ "a" := JInt 5 ]}; "f2" := JObj {[ "a" := JInt 6 ]} ]}%string
      [ "f1"; "f2" ]%string
    = Raise (ValueError (NoMergeStrategy "a" TInt (JInt 6) (JInt 5))).
Proof. split_and!; by vm_compute. Qed.



(** ** External commands *)

Lemma run_command_safely_nonzero Popen cmd args fs p fs' :
  Popen cmd args fs = (Ok p, fs') → returncode p ≠ 0%Z →
  run_command_safely Popen cmd args fs
    = (Raise (Exception (string_of_list_ascii
         (str_process p ++ b " returned error code " ++ decimal_Z (returncode p)
          ++ b ": " ++ stderr_data p))), fs').
Proof.
  intros HP Hrc. unfold run_command_safely. rewrite HP.
  by rewrite bool_decide_eq_true_2.
Qed.

(** C9.  When the [cp] started by [copy] is killed, the exception has the
    exit status and the (empty) error output, and, where the command was
    to be named, the default rendering of the process object. *)
Theorem copy_failure_message :
  copy Popen_killed ["in.h5"; "data"]%string ["out.h5"; "data"]%string ∅
  = (Raise (Exception
       "<subprocess.Popen object at 0x7f89d7563c00> returned error code -9: "), ∅).
Proof. reflexivity. Qed.

(** ** Directories *)

Lemma isdir_insert_dir fs p q :
  isdir fs q = true → isdir (<[p := Dir]> fs) q = true.
Proof.
  unfold isdir, stat. destruct q as [|n q]; [done|].
  destruct (decide (p = n :: q)) as [->|Hne].
  - by rewrite lookup_insert_eq.
  - by rewrite lookup_insert_ne.
Qed.

Lemma os_mkdir_keeps p fs r fs' : os_mkdir p fs = (r, fs') → keeps_dirs fs fs'.
Proof.
  unfold os_mkdir. intros H q Hq.
  destruct (stat fs p) as [x|], p as [|tail head]; try (injection H as _ <-; done).
  destruct (stat fs head) as [[|]|]; injection H as _ <-; try done.
  by apply isdir_insert_dir.
Qed.

Lemma keeps_dirs_trans fs1 fs2 fs3 :
  keeps_dirs fs1 fs2 → keeps_dirs fs2 fs3 → keeps_dirs fs1 fs3.
Proof. intros H1 H2 p Hp. by apply H2, H1. Qed.

Lemma os_makedirs_keeps name fs r fs' :
  os_makedirs name fs = (r, fs') → keeps_dirs fs fs'.
Proof.
  revert fs r fs'. induction name as [|tail head IH]; intros fs r fs' H.
  - by eapply os_mkdir_keeps.
  - cbn [os_makedirs] in H.
    destruct (negb (exists_ fs head)); [|by eapply os_mkdir_keeps].
    destruct (os_makedirs head fs) as [[[]|e] fs1] eqn:Hhead.
    + eapply keeps_dirs_trans; [by eapply IH|by eapply os_mkdir_keeps].
    + destruct e as [| | | | | | |[]| | |]; try (injection H as _ <-; by eapply IH).
      eapply keeps_dirs_trans; [by eapply IH|by eapply os_mkdir_keeps].
Qed.

Lemma makedirs_keeps dst allow_existing fs r fs' :
  makedirs dst allow_existing fs = (r, fs') → keeps_dirs fs fs'.
Proof.
  unfold makedirs. destruct allow_existing; [|apply os_makedirs_keeps].
  destruct (os_makedirs dst fs) as [[[]|e] fs1] eqn:Hm; intros H.
  - injection H as _ <-. by eapply os_makedirs_keeps.
  - destruct e as [| | | | | | |[]| | |];
      try (injection H as _ <-; by eapply os_makedirs_keeps).
    destruct (isdir fs1 dst); injection H as _ <-; by eapply os_makedirs_keeps.
Qed.

Lemma os_mkdir_existing p fs :
  is_Some (stat fs p) → os_mkdir p fs = (Raise (OSError EEXIST), fs).
Proof. intros [x Hx]. unfold os_mkdir. by rewrite Hx. Qed.

Lemma isdir_is_Some fs p : isdir fs p = true → is_Some (stat fs p).
Proof. unfold isdir. destruct (stat fs p); [by eexists|done]. Qed.

(** [os.makedirs] of a directory that is there fails. *)
Lemma os_makedirs_existing name fs :
  isdir fs name = true → ∃ e fs', os_makedirs name fs = (Raise e, fs').
Proof.
  intros Hdir. destruct name as [|tail head].
  - eexists _, _. by apply os_mkdir_existing, isdir_is_Some.
  - cbn [os_makedirs].
    destruct (negb (exists_ fs head));
      [|eexists _, _; by apply os_mkdir_existing, isdir_is_Some].
    destruct (os_makedirs head fs) as [[[]|e] fs1] eqn:Hhead.
    + eexists _, _. apply os_mkdir_existing, isdir_is_Some.
      by eapply os_makedirs_keeps.
    + destruct e as [| | | | | | |[]| | |]; try by eexists _, _.
      eexists _, _. apply os_mkdir_existing, isdir_is_Some.
      by eapply os_makedirs_keeps.
Qed.

Lemma well_formed_head fs tail head :
  well_formed fs = true → is_Some (stat fs (tail :: head)) → isdir fs head = true.
Proof.
  intros Hwf [x Hx]. simpl in Hx. unfold well_formed in Hwf.
  rewrite forallb_forall in Hwf.
  by apply (Hwf (tail :: head, x)), list_elem_of_In, elem_of_map_to_list.
Qed.

Lemma os_makedirs_existing_well_formed name fs :
  well_formed fs = true → is_Some (stat fs name) →
  os_makedirs name fs = (Raise (OSError EEXIST), fs).
Proof.
  intros Hwf Hname. destruct name as [|tail head].
  - by apply os_mkdir_existing.
  - cbn [os_makedirs]. unfold exists_.
    rewrite bool_decide_eq_true_2.
    + by apply os_mkdir_existing.
    + by eapply isdir_is_Some, well_formed_head.
Qed.

Lemma os_listdir_elem fs src name names x :
  fs !! (name :: src) = Some x → os_listdir src fs = Ok names → name ∈ names.
Proof.
  intros Hx. unfold os_listdir.
  destruct (stat fs src) as [[|]|]; try done. intros [= <-].
  apply list_elem_of_omap. exists (name :: src, x). split.
  - by apply elem_of_map_to_list.
  - simpl. by rewrite bool_decide_eq_true_2.
Qed.

(** ** [copytree] *)

Section Copytree.

Variable Popen : string → list (list string) → gmap (list string) node
                 → result process * gmap (list string) node.

(** What is asked of cp(1): it removes no directory. *)
Hypothesis cp_keeps_dirs :
  ∀ args fs r fs', Popen "cp" args fs = (r, fs') → keeps_dirs fs fs'.

Lemma copy_keeps src dst fs r fs' :
  copy Popen src dst fs = (r, fs') → keeps_dirs fs fs'.
Proof.
  unfold copy, run_command_safely.
  destruct (Popen "cp" [src; dst] fs) as [[p|e] fs1] eqn:HP; intros H.
  - destruct (bool_decide _); injection H as _ <-; by eapply cp_keeps_dirs.
  - injection H as _ <-. by eapply cp_keeps_dirs.
Qed.

Lemma copytree_names_keeps rec src dst names fs r fs' :
  (∀ s d fs r fs', rec s d fs = (r, fs') → keeps_dirs fs fs') →
  copytree_names Popen rec src dst names fs = (r, fs') → keeps_dirs fs fs'.
Proof.
  intros Hrec. revert fs. induction names as [|name names IH]; intros fs H.
  - cbn in H. injection H as _ <-. by intros p.
  - cbn [copytree_names] in H.
    destruct (if isdir fs (name :: src) then rec (name :: src) (name :: dst) fs
              else copy Popen (name :: src) (name :: dst) fs)
      as [[[]|e] fs1] eqn:Hstep.
    + eapply keeps_dirs_trans; [|by eapply IH].
      destruct (isdir fs (name :: src)); [by eapply Hrec|by eapply copy_keeps].
    + injection H as _ <-.
      destruct (isdir fs (name :: src)); [by eapply Hrec|by eapply copy_keeps].
Qed.

Lemma copytree_keeps depth src dst allow_existing fs r fs' :
  copytree Popen depth src dst allow_existing fs = (r, fs') → keeps_dirs fs fs'.
Proof.
  revert src dst allow_existing fs r fs'.
  induction depth as [|depth IH]; intros src dst allow_existing fs r fs' H.
  - cbn in H. injection H as _ <-. by intros p.
  - cbn [copytree] in H.
    destruct (makedirs dst allow_existing fs) as [[[]|e] fs1] eqn:Hmk.
    + destruct (os_listdir src fs1) as [names|e].
      * eapply keeps_dirs_trans; [by eapply makedirs_keeps|].
        eapply copytree_names_keeps; [|done].
        intros s d fs2 r2 fs2'. apply IH.
      * injection H as _ <-. by eapply makedirs_keeps.
    + injection H as _ <-. by eapply makedirs_keeps.
Qed.

(** Without the flag, a destination that is there is an error. *)
Lemma copytree_existing_fails depth src dst fs :
  isdir fs dst = true →
  ∃ e fs', copytree Popen depth src dst false fs = (Raise e, fs').
Proof.
  intros Hdst. destruct depth as [|depth]; [by eexists _, _|].
  cbn [copytree]. unfold makedirs.
  destruct (os_makedirs_existing dst fs Hdst) as (e & fs' & ->).
  by eexists _, _.
Qed.

Lemma copytree_names_fails depth src dst name names fs :
  name ∈ names → isdir fs (name :: src) = true → isdir fs (name :: dst) = true →
  ∃ e fs',
    copytree_names Popen (λ s d, copytree Popen depth s d false) src dst names fs
      = (Raise e, fs').
Proof.
  revert fs. induction names as [|n names IH]; intros fs Hin Hsrc Hdst.
  - by apply elem_of_nil in Hin.
  - cbn [copytree_names].
    destruct (if isdir fs (n :: src)
              then copytree Popen depth (n :: src) (n :: dst) false fs
              else copy Popen (n :: src) (n :: dst) fs)
      as [[[]|e] fs1] eqn:Hstep; [|by eexists _, _].
    assert (keeps_dirs fs fs1) as Hkeep.
    { destruct (isdir fs (n :: src));
        [by eapply copytree_keeps|by eapply copy_keeps]. }
    apply elem_of_cons in Hin as [->|Hin].
    + rewrite Hsrc in Hstep.
      destruct (copytree_existing_fails depth (n :: src) (n :: dst) fs Hdst)
        as (e & fs' & He). congruence.
    + apply IH; auto.
Qed.

(** C10.  [allow_existing] reaches the [makedirs] of the destination and
    nothing below it.  (1) When [src] has a sub-directory [name] and
    [dst/name] is a directory already, [copytree] with the flag fails,
    whatever else [src] holds.  (2) When [name] is all that [src] holds,
    it fails with [EEXIST] and changes nothing.  (3) When [src] is empty
    and [dst] is there, the flag makes the difference between success
    and [EEXIST]. *)
Theorem copytree_allow_existing_top_level_only :
  (∀ depth src dst name fs,
     isdir fs (name :: src) = true → isdir fs (name :: dst) = true →
     ∃ e fs', copytree Popen depth src dst true fs = (Raise e, fs'))
  ∧ (∀ depth src dst name fs,
     well_formed fs = true →
     isdir fs (name :: src) = true → isdir fs (name :: dst) = true →
     os_listdir src fs = Ok [name] →
     copytree Popen (S (S depth)) src dst true fs = (Raise (OSError EEXIST), fs))
  ∧ (∀ depth src dst fs,
     well_formed fs = true → isdir fs dst = true → os_listdir src fs = Ok [] →
     copytree Popen (S depth) src dst true fs = (Ok (), fs)
     ∧ copytree Popen (S depth) src dst false fs = (Raise (OSError EEXIST), fs)).
Proof.
  split_and!.
  - intros depth src dst name fs Hsrc Hdst.
    destruct depth as [|depth]; [by eexists _, _|].
    cbn [copytree].
    destruct (makedirs dst true fs) as [[[]|e] fs1] eqn:Hmk; [|by eexists _, _].
    apply makedirs_keeps in Hmk.
    destruct (os_listdir src fs1) as [names|e] eqn:Hls; [|by eexists _, _].
    apply copytree_names_fails with (name := name); auto.
    eapply os_listdir_elem; [|done].
    specialize (Hmk _ Hsrc). unfold isdir in Hmk. simpl in Hmk.
    by destruct (fs1 !! (name :: src)) as [[|]|].
  - intros depth src dst name fs Hwf Hsrc Hdst Hls.
    assert (isdir fs dst = true) as Hd
      by by eapply well_formed_head, isdir_is_Some.
    cbn [copytree]. unfold makedirs at 1.
    rewrite os_makedirs_existing_well_formed, Hd, Hls
      by (done || by apply isdir_is_Some).
    cbn [copytree_names]. rewrite Hsrc. unfold makedirs.
    by rewrite os_makedirs_existing_well_formed by (done || by apply isdir_is_Some).
  - intros depth src dst fs Hwf Hd Hls. cbn [copytree]. unfold makedirs.
    rewrite os_makedirs_existing_well_formed, Hd, Hls
      by (done || by apply isdir_is_Some).
    done.
Qed.

End Copytree.

Lemma isdir_insert_file fs p q content :
  isdir fs p = false → isdir fs q = true → isdir (<[p := File content]> fs) q = true.
Proof.
  unfold isdir, stat. destruct q as [|n q]; [done|].
  destruct (decide (p = n :: q)) as [->|Hne].
  - intros H1 H2. by rewrite H1 in H2.
  - by rewrite lookup_insert_ne.
Qed.

Lemma cp_write_keeps content target fs r fs' :
  cp_write content target fs = (r, fs') → keeps_dirs fs fs'.
Proof.
  unfold cp_write. intros H q Hq.
  destruct (stat fs target) as [[c|]|] eqn:Ht.
  - injection H as _ <-. apply isdir_insert_file; [|done].
    unfold isdir. by rewrite Ht.
  - by injection H as _ <-.
  - destruct target as [|tail head]; [by injection H as _ <-|].
    destruct (stat fs head) as [[|]|]; injection H as _ <-; try done.
    apply isdir_insert_file; [|done]. unfold isdir. by rewrite Ht.
Qed.

Lemma Popen_cp_keeps_dirs args fs r fs' :
  Popen_cp "cp" args fs = (r, fs') → keeps_dirs fs fs'.
Proof.
  unfold Popen_cp. rewrite bool_decide_eq_true_2 by done.
  intros H.
  destruct args as [|src [|dst [|]]]; try (injection H as _ <-; by intros p).
  destruct (stat fs src) as [[content|]|], src as [|name src'];
    try (injection H as _ <-; by intros p).
  destruct (stat fs dst) as [[|]|]; by eapply cp_write_keeps.
Qed.

Lemma copytree_allow_existing_top_level_only_witness :
  copytree Popen_cp 1000 ["a"]%string ["d"]%string true
    {[ ["a"] := Dir; ["s"; "a"] := Dir; ["d"] := Dir; ["s"; "d"] := Dir ]}%string
  = (Raise (OSError EEXIST),
     {[ ["a"] := Dir; ["s"; "a"] := Dir; ["d"] := Dir; ["s"; "d"] := Dir ]}%string).
Proof.
  destruct (copytree_allow_existing_top_level_only Popen_cp Popen_cp_keeps_dirs)
    as (_ & H & _).
  apply (H 998%nat _ _ "s"%string); reflexivity.
Defined.

(** * Further properties *)

(** ** The encoder and the group *)

Lemma create_dataset_effect (group : gmap string dataset) name n data :
  match create_dataset group name n data with
  | (Raise _, group') => group' = group
  | (Ok _, group') => group !! name = None ∧ ∃ ds, group' = <[name := ds]> group
  end.
Proof.
  unfold create_dataset. destruct (group !! name); [done|].
  split; [done|]. by eexists.
Qed.

(** X1.  The encoder writes all or nothing: when it raises, the group is
    as it was; when it returns, the name was free and the group has that
    one dataset more.  A dataset that is there is never replaced. *)
Theorem create_all_or_nothing (group : gmap string dataset) (name : string) (data : pyobj) :
  match create_hdf5_string_dataset group name data with
  | (Raise _, group') => group' = group
  | (Ok _, group') =>
    group !! name = None
    ∧ ∃ ds, group' = <[name := ds]> group
            ∧ ∀ other, other ≠ name → group' !! other = group !! other
  end.
Proof.
  assert (∀ n d,
    match create_dataset group name n d with
    | (Raise _, group') => group' = group
    | (Ok _, group') =>
      group !! name = None
      ∧ ∃ ds, group' = <[name := ds]> group
              ∧ ∀ other, other ≠ name → group' !! other = group !! other
    end) as Hcreate.
  { intros n d. pose proof (create_dataset_effect group name n d) as H.
    destruct (create_dataset group name n d) as [[[]|e] group']; [|done].
    destruct H as (Hfree & ds & ->). split; [done|]. exists ds. split; [done|].
    intros other Hne. by rewrite lookup_insert_ne. }
  unfold create_hdf5_string_dataset.
  destruct data as [| | | |[|x l]|]; try done; try apply Hcreate.
  destruct (negb _); [done|].
  destruct (mapM encode_element (x :: l)); [apply Hcreate|done].
Qed.

Lemma mapM_result_Ok {A B} (f : A → result B) (l : list A) (k : list B) :
  mapM f l = Ok k → Forall2 (λ x y, f x = Ok y) l k.
Proof.
  revert k. induction l as [|x l IH]; intros k; simpl.
  - intros [= <-]. constructor.
  - destruct (f x) as [y|] eqn:Hx; [|done]. simpl.
    destruct (mapM f l) as [k'|]; [|done]. simpl. intros [= <-].
    constructor; [done|]. by apply IH.
Qed.

Lemma mapM_result_Raise {A B} (f : A → result B) (l : list A) (e : exn) :
  mapM f l = Raise e → ∃ x, x ∈ l ∧ f x = Raise e.
Proof.
  induction l as [|x l IH]; simpl; [done|].
  destruct (f x) as [y|e'] eqn:Hx; simpl.
  - destruct (mapM f l) as [k'|e'']; [done|]. simpl. intros [= <-].
    destruct IH as (z & Hz & Hfz); [done|]. exists z. split; [|done].
    by apply list_elem_of_further.
  - intros [= <-]. exists x. split; [apply list_elem_of_here|done].
Qed.

Lemma decimal_ascii (c : N) : Forall (λ a, N_of_ascii a < 128) (decimal c).
Proof.
  pose proof (decimal_digits c) as H. apply Forall_forall. intros a Ha.
  rewrite forallb_forall in H.
  assert (is_digit (N_of_ascii a) = true) as Hd.
  { apply H, list_elem_of_In, list_elem_of_fmap. by exists a. }
  unfold is_digit in Hd. apply andb_prop in Hd as [_ Hd%N.leb_le]. lia.
Qed.

Lemma encode_ascii (s : list N) :
  Forall (λ a, N_of_ascii a < 128) (encode_ascii_xmlcharrefreplace s).
Proof.
  unfold encode_ascii_xmlcharrefreplace.
  induction s as [|c s IH]; [constructor|].
  cbn [flat_map]. apply Forall_app. split; [|done].
  destruct (c <? 128) eqn:E.
  - apply N.ltb_lt in E. constructor; [|constructor].
    rewrite N_ascii_embedding; lia.
  - unfold xmlcharref. rewrite !Forall_app. split_and!.
    + repeat constructor.
    + apply decimal_ascii.
    + repeat constructor.
Qed.

Lemma encode_element_ascii (x : pyobj) (e : list ascii) :
  encode_element x = Ok e → Forall (λ a, N_of_ascii a < 128) e.
Proof.
  destruct x as [|s|s| | |]; simpl; try done.
  - intros [= <-]. constructor.
  - unfold decode_ascii. destruct (forallb _ s) eqn:Hs; [|done]. simpl.
    intros [= <-]. apply encode_ascii.
  - intros [= <-]. apply encode_ascii.
Qed.

(** X2.  Whatever the encoder stores is a well-formed dataset of 7-bit
    ASCII: the width is at least 1, every row has exactly the width, no
    stored byte is above 127, and there is one row per element of the
    data (none, with the null dataspace, for [None] and []). *)
Theorem create_stores_ascii_rows (group : gmap string dataset) (name : string)
    (data : pyobj) :
  match create_hdf5_string_dataset group name data with
  | (Raise _, _) => True
  | (Ok _, group') =>
    ∃ ds, group' !! name = Some ds
      ∧ (1 ≤ dtype_len ds)%nat
      ∧ Forall (λ r, length r = dtype_len ds
                     ∧ Forall (λ a, N_of_ascii a < 128) r) (rows ds)
      ∧ match data with
        | PyList (x :: l) => shape ds = Some (length (x :: l))
                             ∧ length (rows ds) = length (x :: l)
        | _ => shape ds = None ∧ rows ds = []
        end
  end.
Proof.
  pose proof (create_all_or_nothing group name data) as Hall.
  unfold create_hdf5_string_dataset in *.
  destruct data as [| | | |[|x l]|]; try done.
  - unfold create_dataset in *. destruct (group !! name); [done|].
    eexists. rewrite lookup_insert_eq. split_and!; [done|simpl; lia|constructor|done..].
  - unfold create_dataset in *. destruct (group !! name); [done|].
    eexists. rewrite lookup_insert_eq. split_and!; [done|simpl; lia|constructor|done..].
  - destruct (negb _); [done|].
    destruct (mapM encode_element (x :: l)) as [enc|] eqn:Henc; [|done].
    apply mapM_result_Ok in Henc.
    unfold create_dataset in *. destruct (group !! name); [done|].
    eexists. rewrite lookup_insert_eq. split; [done|]. cbn [dtype_len rows shape].
    split_and!.
    + case_bool_decide; lia.
    + apply Forall_fmap, Forall_forall. intros e He. simpl. split.
      * apply length_fixed_width.
      * unfold fixed_width. apply Forall_app. split.
        -- apply Forall_take.
           destruct (list_elem_of_lookup_1 _ _ He) as [i Hi].
           destruct (Forall2_lookup_r _ _ _ _ _ Henc Hi) as (y & _ & Hy).
           by eapply encode_element_ascii.
        -- apply Forall_replicate. unfold NUL. simpl. lia.
    + f_equal. symmetry. by eapply Forall2_length.
    + rewrite length_fmap. symmetry. by eapply Forall2_length.
Qed.

Lemma encode_element_absent_as_empty (x : pyobj) :
  encode_element (absent_as_empty x) = encode_element x.
Proof. by destruct x. Qed.

Lemma mapM_encode_absent_as_empty (l : list pyobj) :
  mapM encode_element (absent_as_empty <$> l) = mapM encode_element l.
Proof.
  induction l as [|x l IH]; [done|].
  rewrite fmap_cons. cbn [mapM]. by rewrite encode_element_absent_as_empty, IH.
Qed.

Lemma read_empty_rows (n : nat) :
  mapM unescape (decode_ascii_ignore <$> (rstrip_nul <$> replicate n [NUL]))
    = Ok (replicate n []).
Proof.
  rewrite !fmap_replicate.
  change (decode_ascii_ignore (rstrip_nul [NUL])) with ([] : list N).
  induction n as [|n IH]; [done|].
  cbn [replicate mapM]. rewrite IH. done.
Qed.

(** X3.  An absent element and an empty text cannot be told apart once
    stored: the encoder stores a list as it stores the same list with
    every [None] written as the empty text; and a non-empty list of
    elements that are all [None] or empty is stored, under a free name, as
    rows of one NUL each and read back as empty texts. *)
Theorem create_absent_is_empty (group : gmap string dataset) (name : string)
    (l : list pyobj) :
  create_hdf5_string_dataset group name (PyList l)
    = create_hdf5_string_dataset group name (PyList (absent_as_empty <$> l))
  ∧ (l ≠ [] → group !! name = None → forallb is_empty_text l = true →
     create_hdf5_string_dataset group name (PyList l)
       = (Ok (), <[name := Dataset 1 (Some (length l)) (replicate (length l) [NUL])]> group)
     ∧ read_hdf5_string_dataset (Dataset 1 (Some (length l)) (replicate (length l) [NUL]))
       = Ok (replicate (length l) (PyUnicode []))).
Proof.
  split.
  - destruct l as [|x l]; [done|]. rewrite fmap_cons.
    cbv beta iota delta [create_hdf5_string_dataset].
    rewrite <-fmap_cons, mapM_encode_absent_as_empty.
    replace (forallb (λ x, is_None x || is_string_types x) (absent_as_empty <$> x :: l))
      with (forallb (λ x, is_None x || is_string_types x) (x :: l)); [done|].
    generalize (x :: l). intros k. induction k as [|y k IH]; [done|].
    rewrite fmap_cons. cbn [forallb]. rewrite IH. by destruct y.
  - intros Hne Hfree Hempty.
    assert (forallb encodable l = true ∧ encoded <$> l = replicate (length l) []) as [Henc Hrows].
    { clear -Hempty. induction l as [|x l IH]; [done|].
      cbn [forallb] in Hempty. apply andb_prop in Hempty as [Hx Hl].
      destruct (IH Hl) as [IH1 IH2]. rewrite fmap_cons. cbn [forallb length replicate].
      rewrite IH1, IH2. by destruct x as [|[|]|[|]| | |]. }
    destruct (create_stores_fixed_width group name l Hne Hfree Henc) as [Hcreate _].
    rewrite Hcreate, Hrows.
    assert (max_list (length <$> replicate (length l) ([] : list ascii)) = 0%nat) as ->.
    { rewrite fmap_replicate. clear.
      induction (length l) as [|n IH]; [done|]. cbn [replicate max_list]. by rewrite IH. }
    rewrite bool_decide_eq_true_2 by done.
    rewrite fmap_replicate. change (fixed_width 1 []) with [NUL].
    split; [done|]. unfold read_hdf5_string_dataset. cbn [shape rows].
    rewrite read_empty_rows. cbn [mbind result_bind].
    by rewrite mapM_make_utf8, fmap_replicate.
Qed.

Lemma create_absent_is_empty_witness :
  create_hdf5_string_dataset ∅ "ids" (PyList [PyNone; PyStr []; PyUnicode []])
    = (Ok (), <["ids"%string := Dataset 1 (Some 3%nat) [[NUL]; [NUL]; [NUL]]]> ∅)
  ∧ read_hdf5_string_dataset (Dataset 1 (Some 3%nat) [[NUL]; [NUL]; [NUL]])
    = Ok [PyUnicode []; PyUnicode []; PyUnicode []].
Proof.
  destruct (create_absent_is_empty ∅ "ids" [PyNone; PyStr []; PyUnicode []]) as [_ H].
  by apply H.
Defined.

(** ** The decoder *)

(** X4.  What the decoder returns is text throughout, one [unicode] per
    row and never [None] or a [str]; a dataset with the null dataspace
    gives no element at all. *)
Theorem read_returns_unicode (ds : dataset) (y : list pyobj) :
  read_hdf5_string_dataset ds = Ok y →
  Forall (λ v, is_unicode v = true) y
  ∧ match shape ds with
    | None => y = []
    | Some _ => length y = length (rows ds)
    end.
Proof.
  unfold read_hdf5_string_dataset. destruct (shape ds).
  - destruct (mapM unescape _) as [unescaped|] eqn:Hun; [|done].
    cbn [mbind result_bind]. rewrite mapM_make_utf8. intros [= <-]. split.
    + apply Forall_fmap, Forall_forall. by intros.
    + apply mapM_result_Ok, Forall2_length in Hun.
      by rewrite !length_fmap in *.
  - by intros [= <-].
Qed.

Lemma read_returns_unicode_witness :
  Forall (λ v, is_unicode v = true) [PyUnicode (u "AAAC"); PyUnicode []]
  ∧ length [PyUnicode (u "AAAC"); PyUnicode []]
    = length [b "AAAC"; [NUL; NUL; NUL; NUL]].
Proof.
  by apply (read_returns_unicode
    (Dataset 4 (Some 2%nat) [b "AAAC"; [NUL; NUL; NUL; NUL]])).
Defined.

Lemma replaceEntities_raise (g : list N) (e : exn) :
  match_group g = true → replaceEntities g = Raise e → e = OverflowError.
Proof.
  intros Hg. unfold replaceEntities.
  destruct g as [|c s]; [done|].
  destruct (c =? HASH) eqn:Hc.
  - apply N.eqb_eq in Hc as ->.
    destruct s as [|x s']; [done|].
    destruct (if is_x x then py_int16 s' else py_int10 (x :: s')) as [n|]; [|done].
    unfold unichr. destruct (n <? 1114112); [done|].
    destruct (n <=? 2147483647); [done|]. by intros [= <-].
  - by destruct (entitydefs (c :: s)).
Qed.

Lemma match_entity_group (s g r : list N) :
  match_entity s = Some (g, r) → match_group g = true.
Proof.
  unfold match_entity. destruct (split_semicolon s) as [[t r']|]; [|done].
  destruct (match_group t) eqn:Ht; [|done]. by intros [= <- _].
Qed.

Lemma re_sub_raise (fuel : nat) (s : list N) (e : exn) :
  re_sub fuel s = Raise e → e = OverflowError.
Proof.
  revert s. induction fuel as [|fuel IH]; intros s; [by destruct s|].
  destruct s as [|c s]; [done|]. cbn [re_sub].
  assert ((t ← re_sub fuel s; Ok (c :: t)) = Raise e → e = OverflowError) as Hkeep.
  { destruct (re_sub fuel s) eqn:Hs; [done|]. intros [= <-]. by eapply IH. }
  destruct (c =? AMP); [|done].
  destruct (match_entity s) as [[g rest]|] eqn:Hm; [|done].
  destruct (replaceEntities g) as [r|e'] eqn:Hg.
  - cbn [mbind result_bind].
    destruct (re_sub fuel rest) eqn:Hs; [done|]. intros [= <-]. by eapply IH.
  - intros [= <-]. eapply replaceEntities_raise; [|done]. by eapply match_entity_group.
Qed.

(** X5.  The decoder is lossy but nearly total: the one exception it can
    raise is the [OverflowError] of a stored reference to a number beyond
    a C [int]; bytes above 127, unknown entities and references to numbers
    that are no code point never make it fail. *)
Theorem read_raises_overflow_only (ds : dataset) (e : exn) :
  read_hdf5_string_dataset ds = Raise e → e = OverflowError.
Proof.
  unfold read_hdf5_string_dataset. destruct (shape ds); [|done].
  destruct (mapM unescape _) as [unescaped|e'] eqn:Hun.
  - cbn [mbind result_bind]. by rewrite mapM_make_utf8.
  - intros [= <-]. apply mapM_result_Raise in Hun as (s & _ & Hs).
    unfold unescape in Hs. destruct (negb _); [done|].
    by eapply re_sub_raise.
Qed.

Lemma read_raises_overflow_only_witness :
  read_hdf5_string_dataset (Dataset 13 (Some 1%nat) [b "&#4294967296;"])
    = Raise OverflowError.
Proof.
  destruct (read_hdf5_string_dataset (Dataset 13 (Some 1%nat) [b "&#4294967296;"]))
    as [y|e] eqn:H; [by vm_compute in H|].
  f_equal. by apply (read_raises_overflow_only _ e H).
Defined.

(** ** Round trips of text beyond ASCII *)

Lemma read_row_unicode (s : list N) (w : nat) :
  AMP ∉ s → Forall (λ a, a < 1114112) s → last s ≠ Some 0 →
  (length (encode_ascii_xmlcharrefreplace s) ≤ w)%nat →
  unescape (decode_ascii_ignore
    (rstrip_nul (fixed_width w (encode_ascii_xmlcharrefreplace s)))) = Ok s.
Proof.
  intros Hamp Hvalid Hlast Hw.
  rewrite fixed_width_le, rstrip_nul_padding by done.
  rewrite rstrip_nul_id by by apply last_encode.
  by apply unescape_encode.
Qed.

(** X6.  A list of [unicode] texts of any code points comes back as it
    was from an encode under a free name followed by a decode, when no
    text has an [&] and none ends with the character NUL. *)
Theorem roundtrip_unicode (group : gmap string dataset) (name : string)
    (l : list (list N)) :
  group !! name = None →
  Forall (λ s, (AMP ∉ s) ∧ Forall (λ a, a < 1114112) s ∧ (last s ≠ Some 0)) l →
  ∃ ds,
    create_hdf5_string_dataset group name (PyList (PyUnicode <$> l))
      = (Ok (), <[name := ds]> group)
    ∧ read_hdf5_string_dataset ds = Ok (PyUnicode <$> l).
Proof.
  intros Hfree Hl.
  destruct (decide (l = [])) as [->|Hne].
  { exists (Dataset 1 None []). simpl. by rewrite create_dataset_fresh. }
  destruct (create_stores_fixed_width group name (PyUnicode <$> l))
    as (Hcreate & Hrows & _); [by destruct l|done| |].
  { apply forallb_forall. intros x Hx%list_elem_of_In.
    by apply list_elem_of_fmap in Hx as (s & -> & _). }
  set (w := if bool_decide (max_list (length <$> (encoded <$> (PyUnicode <$> l))) = 0%nat)
            then 1%nat else max_list (length <$> (encoded <$> (PyUnicode <$> l)))) in *.
  eexists. split; [exact Hcreate|].
  unfold read_hdf5_string_dataset. cbn [shape rows].
  rewrite <-!list_fmap_compose.
  rewrite (mapM_fmap_Ok _ _ id).
  - cbn [mbind result_bind]. by rewrite list_fmap_id, mapM_make_utf8.
  - intros s Hs. simpl.
    destruct (list_elem_of_lookup_1 _ _ Hs) as [i Hi].
    destruct (Hrows i (PyUnicode s)) as [_ Hle].
    { by rewrite list_lookup_fmap, Hi. }
    rewrite Forall_forall in Hl. destruct (Hl s Hs) as (Hamp & Hvalid & Hlast).
    by apply read_row_unicode.
Qed.

Lemma roundtrip_unicode_witness :
  ∃ ds,
    create_hdf5_string_dataset ∅ "names" (PyList (PyUnicode <$> [[99; 97; 102; 233]; [8364; 53]; []]))
      = (Ok (), <["names"%string := ds]> ∅)
    ∧ read_hdf5_string_dataset ds = Ok (PyUnicode <$> [[99; 97; 102; 233]; [8364; 53]; []]).
Proof.
  apply (roundtrip_unicode ∅ "names"); [reflexivity|].
  repeat constructor; try done; try lia;
    intros H%list_elem_of_In; simpl in H; intuition discriminate.
Defined.

(** ** The decoder never lengthens *)

Lemma split_semicolon_length_eq (s t r : list N) :
  split_semicolon s = Some (t, r) → length s = S (length t + length r).
Proof.
  revert t. induction s as [|c s IH]; intros t; simpl; [done|].
  destruct (c =? SEMICOLON).
  - by intros [= <- <-].
  - destruct (split_semicolon s) as [[t' r']|]; [|done].
    intros [= <- <-]. simpl. by rewrite (IH t').
Qed.

Lemma replaceEntities_length (g r : list N) :
  replaceEntities g = Ok r → (length r ≤ length g + 2)%nat.
Proof.
  unfold replaceEntities. destruct g as [|c s]; [done|].
  destruct (c =? HASH).
  - destruct s as [|x s']; [done|].
    destruct (if is_x x then py_int16 s' else py_int10 (x :: s')) as [n|].
    + destruct (unichr n) as [ch|[]]; try done; intros [= <-];
        simpl; rewrite ?length_app; simpl; lia.
    + intros [= <-]. simpl. rewrite ?length_app. simpl. lia.
  - destruct (entitydefs (c :: s)); intros [= <-];
      simpl; rewrite ?length_app; simpl; lia.
Qed.

Lemma re_sub_length (fuel : nat) (s t : list N) :
  re_sub fuel s = Ok t → (length t ≤ length s)%nat.
Proof.
  revert s t. induction fuel as [|fuel IH]; intros s t.
  - destruct s; by intros [= <-].
  - destruct s as [|c s]; [by intros [= <-]|]. cbn [re_sub].
    assert ((t' ← re_sub fuel s; Ok (c :: t')) = Ok t → length t ≤ length (c :: s))%nat
      as Hkeep.
    { destruct (re_sub fuel s) as [t'|] eqn:Hs; [|done]. intros [= <-].
      apply IH in Hs. simpl. lia. }
    destruct (c =? AMP); [|done].
    destruct (match_entity s) as [[g rest]|] eqn:Hm; [|done].
    destruct (replaceEntities g) as [r|] eqn:Hg; [|done]. cbn [mbind result_bind].
    destruct (re_sub fuel rest) as [t'|] eqn:Hs; [|done]. intros [= <-].
    apply IH in Hs. apply replaceEntities_length in Hg.
    unfold match_entity in Hm.
    destruct (split_semicolon s) as [[g' rest']|] eqn:Hsplit; [|done].
    destruct (match_group g'); [|done]. injection Hm as -> ->.
    apply split_semicolon_length_eq in Hsplit.
    rewrite length_app. simpl. lia.
Qed.

Lemma rstrip_nul_length (s : list ascii) : (length (rstrip_nul s) ≤ length s)%nat.
Proof.
  induction s as [|c s IH]; [done|]. rewrite rstrip_nul_cons.
  destruct (_ && _); simpl; lia.
Qed.

(** X7.  Decoding never lengthens: every text the decoder returns has at
    most as many characters as the row it comes from has bytes, so at most
    the width of the dataset when the rows have that width. *)
Theorem read_texts_within_width (ds : dataset) (y : list pyobj) :
  read_hdf5_string_dataset ds = Ok y →
  Forall (λ r, length r ≤ dtype_len ds)%nat (rows ds) →
  Forall (λ v, length (text_of v) ≤ dtype_len ds)%nat y.
Proof.
  unfold read_hdf5_string_dataset. destruct (shape ds); [|intros [= <-]; constructor].
  destruct (mapM unescape _) as [unescaped|] eqn:Hun; [|done].
  cbn [mbind result_bind]. rewrite mapM_make_utf8. intros [= <-] Hrows.
  apply Forall_fmap, Forall_forall. intros t Ht. simpl.
  apply mapM_result_Ok in Hun.
  destruct (list_elem_of_lookup_1 _ _ Ht) as [i Hi].
  destruct (Forall2_lookup_r _ _ _ _ _ Hun Hi) as (s & Hs & Hst).
  rewrite !list_lookup_fmap in Hs.
  destruct (rows ds !! i) as [r|] eqn:Hr; [|done]. injection Hs as <-.
  assert (length r ≤ dtype_len ds)%nat as Hlen.
  { rewrite Forall_forall in Hrows. by eapply Hrows, list_elem_of_lookup_2. }
  assert (length t ≤ length (decode_ascii_ignore (rstrip_nul r)))%nat as Ht'.
  { unfold unescape in Hst. destruct (negb _); [by injection Hst as <-|].
    by eapply re_sub_length. }
  unfold decode_ascii_ignore in Ht'. rewrite length_fmap in Ht'.
  pose proof (length_filter (λ c, N_of_ascii c < 128) (rstrip_nul r)).
  pose proof (rstrip_nul_length r). lia.
Qed.

Lemma read_texts_within_width_witness :
  Forall (λ v, length (text_of v) ≤ 8)%nat [PyUnicode [233; 38; 59]; PyUnicode (u "AAAC")].
Proof.
  apply (read_texts_within_width
    (Dataset 8 (Some 2%nat) [b "&#233;&;"; b "AAAC" ++ replicate 4 NUL])).
  - reflexivity.
  - cbn [rows dtype_len].
    repeat (apply List.Forall_cons; [vm_compute; lia|]). apply List.Forall_nil.
Defined.

(** ** [make_utf8] *)

Lemma decode_utf8_valid (n : nat) (s t : list N) :
  (length s ≤ n)%nat → decode_utf8 s = Ok t →
  Forall (λ a, a < 1114112) t ∧ (length t ≤ length s)%nat.
Proof.
  revert s t. induction n as [|n IH]; intros s t Hn H.
  { destruct s; [|simpl in Hn; lia]. injection H as <-. by split. }
  destruct s as [|c0 s1]; [injection H as <-; by split|].
  cbn [decode_utf8] in H. simpl in Hn.
  repeat match type of H with
  | (if ?c then _ else _) = _ => destruct c eqn:?
  | match ?l with [] => _ | _ :: _ => _ end = _ => destruct l
  | Raise _ = Ok _ => discriminate H
  end.
  all: match type of H with
       | (r ← decode_utf8 ?l; _) = _ =>
         destruct (decode_utf8 l) as [r|] eqn:Hr; [|discriminate H];
         injection H as <-; apply IH in Hr as [Hv Hl]; [|simpl in *; lia]
       end.
  all: split; [constructor; [|done]|simpl in *; lia].
  all: unfold continuation in *;
    repeat match goal with
    | H : (_ && _) = true |- _ => apply andb_prop in H as [? ?]
    | H : negb _ = true |- _ => apply negb_true_iff in H
    | H : (_ && _) = false |- _ => apply andb_false_iff in H
    | H : (_ <? _) = true |- _ => apply N.ltb_lt in H
    | H : (_ <? _) = false |- _ => apply N.ltb_ge in H
    | H : (_ <=? _) = true |- _ => apply N.leb_le in H
    | H : (_ =? _) = false |- _ => apply N.eqb_neq in H
    end; try lia.
  all: repeat match goal with
    | H : _ ∨ _ |- _ => destruct H
    | H : (_ <? _) = true |- _ => apply N.ltb_lt in H
    | H : (_ <? _) = false |- _ => apply N.ltb_ge in H
    | H : (_ =? _) = false |- _ => apply N.eqb_neq in H
    end; lia.
Qed.

Lemma decode_utf8_raise (n : nat) (s : list N) (e : exn) :
  (length s ≤ n)%nat → decode_utf8 s = Raise e → e = UnicodeDecodeError.
Proof.
  revert s. induction n as [|n IH]; intros s Hn H.
  { destruct s; [done|simpl in Hn; lia]. }
  destruct s as [|c0 s1]; [done|].
  cbn [decode_utf8] in H. simpl in Hn.
  repeat match type of H with
  | (if ?c then _ else _) = _ => destruct c eqn:?
  | match ?l with [] => _ | _ :: _ => _ end = _ => destruct l
  | Raise _ = Raise _ => by injection H as <-
  end.
  all: match type of H with
       | (r ← decode_utf8 ?l; _) = _ =>
         destruct (decode_utf8 l) as [r|] eqn:Hr; [discriminate H|];
         injection H as <-; apply IH in Hr; [done|simpl in *; lia]
       end.
Qed.

Lemma decode_utf8_ascii (s : list ascii) :
  forallb (λ c, N_of_ascii c <? 128) s = true →
  decode_utf8 (N_of_ascii <$> s) = Ok (N_of_ascii <$> s).
Proof.
  induction s as [|c s IH]; [done|].
  intros [Hc Hs]%andb_prop. rewrite fmap_cons. cbn [decode_utf8].
  by rewrite Hc, IH.
Qed.

(** X8.  [make_utf8] gives text or raises.  When it returns, its argument
    was a string, the result is a [unicode] of code points below 0x110000
    when it was decoded from a [str], with no more characters than the
    [str] has bytes, and applying it again changes nothing; a [unicode] is
    returned as it is and a [str] of ASCII bytes as the same characters.
    It raises [UnicodeDecodeError] only for a [str], and the [ValueError]
    naming the type exactly for what is not a string. *)
Theorem make_utf8_text (x : pyobj) :
  match make_utf8 x with
  | Ok y =>
    is_string_types x = true ∧ is_unicode y = true ∧ make_utf8 y = Ok y
    ∧ (is_unicode x = true → y = x)
    ∧ (∀ s, x = PyStr s →
         Forall (λ a, a < 1114112) (text_of y)
         ∧ (length (text_of y) ≤ length s)%nat
         ∧ (forallb (λ c, N_of_ascii c <? 128) s = true → y = PyUnicode (N_of_ascii <$> s)))
  | Raise e =>
    (is_string_types x = false ∧ e = ValueError (ExpectedStringType (type_of_pyobj x)))
    ∨ (∃ s, x = PyStr s ∧ e = UnicodeDecodeError)
  end.
Proof.
  destruct x as [|s|s| | |]; simpl; try (by left).
  - destruct (decode_utf8 (N_of_ascii <$> s)) as [t|e] eqn:Ht; simpl.
    + split_and!; try done. intros s' [= <-].
      destruct (decode_utf8_valid _ _ _ (Nat.le_refl _) Ht) as [Hv Hl].
      rewrite length_fmap in Hl. split_and!; [done..|].
      intros Hascii. rewrite decode_utf8_ascii in Ht by done. by injection Ht as <-.
    + right. exists s. split; [done|].
      by eapply decode_utf8_raise.
  - by split_and!.
Qed.

(** ** More on the merger *)




Lemma merge_item_dom (merged merged' : gmap string json) (key : string) (value : json) :
  merge_item merged key value = Ok merged' →
  ∀ j, is_Some (merged' !! j) ↔ j = key ∨ is_Some (merged !! j).
Proof.
  unfold merge_item. intros H j.
  destruct (merged !! key) as [old|] eqn:Hold.
  - destruct (json_eq old value).
    + injection H as <-. split; [auto|]. intros [->|?]; [by eexists|done].
    + destruct value, old; try done. injection H as <-.
      rewrite lookup_insert_is_Some. split; intros [?|?]; auto.
      * destruct H as [_ H]. auto.
      * destruct (decide (key = j)); auto.
  - injection H as <-. rewrite lookup_insert_is_Some. split; intros [?|?]; auto.
    + destruct H as [_ H]. auto.
    + destruct (decide (key = j)); auto.
Qed.

Lemma merge_items_dom (items : list (string * json)) (merged merged' : gmap string json) :
  merge_items merged items = Ok merged' →
  ∀ j, is_Some (merged' !! j) ↔ j ∈ items.*1 ∨ is_Some (merged !! j).
Proof.
  revert merged. induction items as [|[k v] items IH]; intros merged H j.
  - injection H as <-. split; [auto|]. by intros [?%elem_of_nil|?].
  - cbn [merge_items] in H.
    destruct (merge_item merged k v) as [m1|] eqn:Hitem; [|done].
    cbn [mbind result_bind] in H.
    rewrite (IH _ H), (merge_item_dom _ _ _ _ Hitem), fmap_cons, elem_of_cons.
    simpl. tauto.
Qed.

Lemma merge_files_dom (disk : gmap string json) (filenames : list string)
    (merged m : gmap string json) :
  merge_files disk merged filenames = Ok m →
  readable disk filenames
  ∧ ∀ j, is_Some (m !! j)
         ↔ is_Some (merged !! j)
           ∨ ∃ f d, f ∈ filenames ∧ disk !! f = Some (JObj d) ∧ is_Some (d !! j).
Proof.
  revert merged. induction filenames as [|f l IH]; intros merged H.
  - injection H as <-. split; [by intros ? ?%elem_of_nil|].
    intros j. split; [auto|]. by intros [?|(? & ? & ?%elem_of_nil & _)].
  - cbn [merge_files] in H.
    destruct (merge_file disk merged f) as [m1|] eqn:Hfile; [|done].
    cbn [mbind result_bind] in H. destruct (IH _ H) as [Hr Hdom].
    unfold merge_file in Hfile.
    destruct (disk !! f) as [[| | | | |d]|] eqn:Hd; try done.
    pose proof (merge_items_dom _ _ _ Hfile) as Hd1. split.
    + intros f' [->|Hf']%elem_of_cons; [by exists d|by apply Hr].
    + intros j. rewrite Hdom, Hd1. split.
      * intros [[Hj|Hj]|(f' & d' & Hf' & Hd' & Hj)]; auto.
        -- right. exists f, d. split_and!; [apply list_elem_of_here|done|].
           apply list_elem_of_fmap in Hj as ([k v] & -> & Hkv).
           apply elem_of_map_to_list in Hkv. by eexists.
        -- right. exists f', d'. split_and!; [by apply list_elem_of_further|done..].
      * intros [Hj|(f' & d' & [->|Hf']%elem_of_cons & Hd' & [v Hj])]; auto.
        -- left. left. assert (d' = d) as -> by congruence.
           apply list_elem_of_fmap. exists (j, v). split; [done|].
           by apply elem_of_map_to_list.
        -- right. exists f', d'. split_and!; [done..|by eexists].
Qed.

(** X10.  A merge that returns has read every file as a dictionary, and
    the keys of what it returns are the top-level keys of the files, no
    more and no fewer. *)
Theorem merge_keys (disk : gmap string json) (filenames : list string)
    (m : gmap string json) :
  merge_jsons_single_level disk filenames = Ok m →
  (∀ f, f ∈ filenames → ∃ d, disk !! f = Some (JObj d))
  ∧ ∀ key, is_Some (m !! key)
           ↔ ∃ f d, f ∈ filenames ∧ disk !! f = Some (JObj d) ∧ is_Some (d !! key).
Proof.
  intros H. destruct (merge_files_dom _ _ _ _ H) as [Hr Hdom]. split; [done|].
  intros key. rewrite Hdom. split; [|auto].
  intros [[? ?%lookup_empty_Some]|?]; done.
Qed.

Lemma merge_keys_witness :
  (∀ f, f ∈ [ "f1"; "f2" ]%string →
     ∃ d, ({[ "f1" := JObj {[ "a" := JInt 1 ]}; "f2" := JObj {[ "b" := JNull ]} ]}%string
            : gmap string json) !! f = Some (JObj d))
  ∧ ∀ key, is_Some (({[ "a" := JInt 1; "b" := JNull ]}%string : gmap string json) !! key)
           ↔ ∃ f d, f ∈ [ "f1"; "f2" ]%string
                    ∧ ({[ "f1" := JObj {[ "a" := JInt 1 ]};
                          "f2" := JObj {[ "b" := JNull ]} ]}%string
                         : gmap string json) !! f = Some (JObj d)
                    ∧ is_Some (d !! key).
Proof. apply merge_keys. by vm_compute. Defined.

Lemma merge_item_keeps_scalar (merged merged' : gmap string json)
    (key k : string) (value v : json) :
  merged !! k = Some v → (∀ a, v ≠ JObj a) →
  merge_item merged key value = Ok merged' → merged' !! k = Some v.
Proof.
  intros Hk Hv. unfold merge_item.
  destruct (merged !! key) as [old|] eqn:Hold.
  - destruct (json_eq old value); [by intros [= <-]|].
    destruct value, old; try done. intros [= <-].
    rewrite lookup_insert_ne; [done|]. intros ->.
    rewrite Hk in Hold. injection Hold as ->. by destruct (Hv m0).
  - intros [= <-]. rewrite lookup_insert_ne; [done|]. congruence.
Qed.

Lemma merge_files_keeps_scalar (disk : gmap string json) (filenames : list string)
    (merged m : gmap string json) (k : string) (v : json) :
  merged !! k = Some v → (∀ a, v ≠ JObj a) →
  merge_files disk merged filenames = Ok m → m !! k = Some v.
Proof.
  intros Hk Hv. revert merged Hk.
  induction filenames as [|f l IH]; intros merged Hk H; [by injection H as <-|].
  cbn [merge_files] in H.
  destruct (merge_file disk merged f) as [m1|] eqn:Hfile; [|done].
  cbn [mbind result_bind] in H. apply (IH m1); [|done].
  unfold merge_file in Hfile.
  destruct (disk !! f) as [[| | | | |d]|]; try done.
  clear -Hk Hv Hfile. revert merged Hk Hfile.
  induction (map_to_list d) as [|[key value] items IHi]; intros merged Hk Hfile.
  - by injection Hfile as <-.
  - cbn [merge_items] in Hfile.
    destruct (merge_item merged key value) as [m2|] eqn:Hitem; [|done].
    cbn [mbind result_bind] in Hfile. apply (IHi m2); [|done].
    by eapply merge_item_keeps_scalar.
Qed.

(** X11.  The first file wins for a value that is no dictionary: when the
    merge returns, a key to which the first file gives such a value has
    exactly that value in the result, whatever equal values ([True] for
    [1], say) the later files give it. *)
Theorem merge_first_scalar_wins (disk : gmap string json) (f : string)
    (rest : list string) (d m : gmap string json) (key : string) (v : json) :
  disk !! f = Some (JObj d) → d !! key = Some v → (∀ a, v ≠ JObj a) →
  merge_jsons_single_level disk (f :: rest) = Ok m →
  m !! key = Some v.
Proof.
  intros Hd Hkey Hv. unfold merge_jsons_single_level. cbn [merge_files].
  rewrite (merge_file_compatible disk ∅ d), merge_dict_empty_l;
    [|done|by intros ? ? ? ?%lookup_empty_Some].
  cbn [mbind result_bind]. by apply merge_files_keeps_scalar.
Qed.

Lemma merge_first_scalar_wins_witness :
  ({[ "a" := JBool true ]}%string : gmap string json) !! "a"%string = Some (JBool true).
Proof.
  apply (merge_first_scalar_wins
    {[ "f1" := JObj {[ "a" := JBool true ]}; "f2" := JObj {[ "a" := JInt 1 ]} ]}%string
    "f1" [ "f2" ]%string {[ "a" := JBool true ]}%string); try done.
Defined.

(** ** Making directories *)

Lemma os_mkdir_ok (p : list string) (fs fs' : gmap (list string) node) :
  os_mkdir p fs = (Ok (), fs') →
  ∃ tail head, p = tail :: head ∧ fs !! p = None ∧ isdir fs head = true
               ∧ fs' = <[p := Dir]> fs.
Proof.
  unfold os_mkdir, isdir. intros H.
  destruct (stat fs p) as [x|] eqn:Hp, p as [|tail head]; try done.
  destruct (stat fs head) as [[|]|] eqn:Hhead; try done.
  injection H as <-. exists tail, head. by rewrite Hhead.
Qed.

Lemma os_mkdir_raise (p : list string) (fs fs' : gmap (list string) node) (e : exn) :
  os_mkdir p fs = (Raise e, fs') → fs' = fs.
Proof.
  unfold os_mkdir. intros H.
  destruct (stat fs p) as [x|], p as [|tail head]; try by injection H as _ <-.
  destruct (stat fs head) as [[|]|]; try done; by injection H as _ <-.
Qed.

Lemma os_mkdir_eexist (p : list string) (fs fs' : gmap (list string) node) :
  os_mkdir p fs = (Raise (OSError EEXIST), fs') → fs' = fs ∧ is_Some (stat fs p).
Proof.
  intros H. split; [by eapply os_mkdir_raise|]. revert H. unfold os_mkdir.
  destruct p as [|tail head]; [by eexists|].
  destruct (stat fs (tail :: head)) as [x|]; [by eexists|].
  by destruct (stat fs head) as [[|]|].
Qed.

Lemma isdir_exists (fs : gmap (list string) node) (p : list string) :
  isdir fs p = true → exists_ fs p = true.
Proof. intros H. by apply bool_decide_eq_true_2, isdir_is_Some. Qed.

(** X12.  Creation with [allow_existing] can be repeated: once [mkdir] has
    returned, the path is a directory, nothing else has changed, a second
    call with the flag returns and changes nothing, and one without the
    flag raises [EEXIST].  The flag does not let a regular file pass for
    the directory: that is [EEXIST] with it as without it. *)
Theorem mkdir_idempotent (dst : list string) (fs : gmap (list string) node) :
  (∀ allow_existing fs1,
     mkdir dst allow_existing fs = (Ok (), fs1) →
     isdir fs1 dst = true
     ∧ (∀ p, p ≠ dst → fs1 !! p = fs !! p)
     ∧ mkdir dst true fs1 = (Ok (), fs1)
     ∧ mkdir dst false fs1 = (Raise (OSError EEXIST), fs1))
  ∧ (∀ allow_existing content,
       stat fs dst = Some (File content) →
       mkdir dst allow_existing fs = (Raise (OSError EEXIST), fs)).
Proof.
  split.
  - intros allow_existing fs1 H.
    assert (isdir fs1 dst = true ∧ ∀ p, p ≠ dst → fs1 !! p = fs !! p) as [Hdir Hframe].
    { unfold mkdir in H. destruct allow_existing.
      - destruct (os_mkdir dst fs) as [[[]|e] fs2] eqn:Hmk.
        + injection H as <-.
          apply os_mkdir_ok in Hmk as (tail & head & -> & _ & _ & ->). split.
          * unfold isdir. simpl. by rewrite lookup_insert_eq.
          * intros p Hp. by rewrite lookup_insert_ne.
        + apply os_mkdir_raise in Hmk as Hfs. subst fs2.
          destruct e as [| | | | | | |[]| | |]; try done.
          destruct (isdir fs dst) eqn:Hd; [|done]. by injection H as <-.
      - apply os_mkdir_ok in H as (tail & head & -> & _ & _ & ->). split.
        + unfold isdir. simpl. by rewrite lookup_insert_eq.
        + intros p Hp. by rewrite lookup_insert_ne. }
    split_and!; [done..| |].
    + unfold mkdir. by rewrite os_mkdir_existing, Hdir by by apply isdir_is_Some.
    + unfold mkdir. by rewrite os_mkdir_existing by by apply isdir_is_Some.
  - intros allow_existing content Hf.
    unfold mkdir. rewrite os_mkdir_existing by by eexists.
    unfold isdir. rewrite Hf. by destruct allow_existing.
Qed.

Lemma mkdir_idempotent_witness :
  mkdir ["out"; "run"]%string true {[ ["run"] := Dir; ["out"; "run"] := Dir ]}%string
  = (Ok (), {[ ["run"] := Dir; ["out"; "run"] := Dir ]}%string).
Proof.
  destruct (mkdir_idempotent ["out"; "run"]%string {[ ["run"] := Dir ]}%string) as [H _].
  destruct (H true {[ ["run"] := Dir; ["out"; "run"] := Dir ]}%string) as (_ & _ & H' & _);
    [reflexivity|exact H'].
Defined.

Lemma os_mkdir_frame (p : list string) (fs fs' : gmap (list string) node)
    (r : result unit) :
  os_mkdir p fs = (r, fs') →
  ∀ q, fs' !! q = fs !! q ∨ (q = p ∧ fs !! q = None ∧ fs' !! q = Some Dir).
Proof.
  intros H q. destruct r as [[]|e].
  - apply os_mkdir_ok in H as (tail & head & -> & Hp & _ & ->).
    destruct (decide (q = tail :: head)) as [->|Hne].
    + right. by rewrite lookup_insert_eq.
    + left. by rewrite lookup_insert_ne.
  - apply os_mkdir_raise in H as ->. by left.
Qed.

Lemma os_makedirs_frame (name : list string) (fs fs' : gmap (list string) node)
    (r : result unit) :
  os_makedirs name fs = (r, fs') →
  ∀ q, fs' !! q = fs !! q
       ∨ (q `suffix_of` name ∧ fs !! q = None ∧ fs' !! q = Some Dir).
Proof.
  assert (∀ p fs fs' r, os_mkdir p fs = (r, fs') →
            ∀ q, fs' !! q = fs !! q
                 ∨ (q `suffix_of` p ∧ fs !! q = None ∧ fs' !! q = Some Dir)) as Hmkdir.
  { intros p fs0 fs0' r0 H q.
    destruct (os_mkdir_frame _ _ _ _ H q) as [?|(-> & ? & ?)]; auto. }
  assert (∀ tail head fs fs1 fs' r r1,
            (∀ q, fs1 !! q = fs !! q
                  ∨ (q `suffix_of` head ∧ fs !! q = None ∧ fs1 !! q = Some Dir)) →
            os_mkdir (tail :: head) fs1 = (r, fs') →
            os_makedirs head fs = (r1, fs1) →
            ∀ q, fs' !! q = fs !! q
                 ∨ (q `suffix_of` tail :: head ∧ fs !! q = None ∧ fs' !! q = Some Dir))
    as Hstep.
  { intros tail head fs0 fs1 fs0' r0 r1 IH Hmk _ q.
    destruct (Hmkdir _ _ _ _ Hmk q) as [Heq|(Hs & Hn & Hd)];
      destruct (IH q) as [Heq1|(Hs1 & Hn1 & Hd1)].
    - left. congruence.
    - right. split_and!; [by apply suffix_cons_r|done|congruence].
    - right. split_and!; [done|congruence|done].
    - congruence. }
  revert fs r fs'. induction name as [|tail head IH]; intros fs r fs' H.
  - by eapply Hmkdir.
  - cbn [os_makedirs] in H.
    destruct (negb (exists_ fs head)); [|by eapply Hmkdir].
    destruct (os_makedirs head fs) as [[[]|e] fs1] eqn:Hhead.
    + eapply Hstep; [by eapply IH|done..].
    + destruct e as [| | | | | | |[]| | |];
        try (injection H as _ <-; intros q;
             destruct (IH _ _ _ Hhead q) as [?|(? & ? & ?)];
             [by left|right; split_and!; [by apply suffix_cons_r|done..]]).
      eapply Hstep; [by eapply IH|done..].
Qed.

(** What [os.makedirs] leaves when it returns, and when it raises
    [EEXIST]: the path, and the directory it lies in. *)
Lemma os_makedirs_outcome (name : list string) (fs fs' : gmap (list string) node)
    (r : result unit) :
  os_makedirs name fs = (r, fs') →
  (r = Ok () ∨ r = Raise (OSError EEXIST)) →
  is_Some (stat fs' name)
  ∧ (r = Ok () → isdir fs' name = true)
  ∧ match name with [] => True | _ :: head => exists_ fs' head = true end.
Proof.
  assert (∀ tail head fs fs' r,
            os_mkdir (tail :: head) fs = (r, fs') →
            (r = Ok () ∨ r = Raise (OSError EEXIST)) →
            exists_ fs head = true →
            is_Some (stat fs' (tail :: head))
            ∧ (r = Ok () → isdir fs' (tail :: head) = true)
            ∧ exists_ fs' head = true) as Hmkdir.
  { intros tail head fs0 fs0' r0 Hmk [->| ->] Hhead.
    - apply os_mkdir_ok in Hmk as (tail' & head' & [= <- <-] & _ & Hd & ->).
      split_and!.
      + simpl. rewrite lookup_insert_eq. by eexists.
      + intros _. unfold isdir. simpl. by rewrite lookup_insert_eq.
      + by apply isdir_exists, isdir_insert_dir.
    - apply os_mkdir_eexist in Hmk as [-> Hs]. by split_and!. }
  revert fs r fs'. induction name as [|tail head IH]; intros fs r fs' H Hr.
  - split_and!; [by eexists|done..].
  - cbn [os_makedirs] in H.
    destruct (exists_ fs head) eqn:Hex; cbn [negb] in H; [by eapply Hmkdir|].
    destruct (os_makedirs head fs) as [[[]|e] fs1] eqn:Hhead.
    + eapply Hmkdir; [done..|].
      destruct (IH _ _ _ Hhead) as (Hs & _ & _); [by left|].
      by apply bool_decide_eq_true_2.
    + destruct e as [| | | | | | |[]| | |];
        try (injection H as <- <-; by destruct Hr).
      eapply Hmkdir; [done..|].
      destruct (IH _ _ _ Hhead) as (Hs & _ & _); [by right|].
      by apply bool_decide_eq_true_2.
Qed.

Lemma well_formed_spec (fs : gmap (list string) node) :
  well_formed fs = true
  ↔ ∀ p x, fs !! p = Some x → ∃ tail head, p = tail :: head ∧ isdir fs head = true.
Proof.
  unfold well_formed. rewrite forallb_forall. split.
  - intros H p x Hp.
    specialize (H (p, x)). simpl in H.
    destruct p as [|tail head].
    + discriminate H. by apply list_elem_of_In, elem_of_map_to_list.
    + exists tail, head. split; [done|].
      by apply H, list_elem_of_In, elem_of_map_to_list.
  - intros H [p x] Hin%list_elem_of_In%elem_of_map_to_list.
    destruct (H p x Hin) as (tail & head & -> & Hd). done.
Qed.

Lemma os_mkdir_well_formed (p : list string) (fs fs' : gmap (list string) node)
    (r : result unit) :
  os_mkdir p fs = (r, fs') → well_formed fs = true → well_formed fs' = true.
Proof.
  intros H Hwf. destruct r as [[]|e]; [|by apply os_mkdir_raise in H as ->].
  apply os_mkdir_ok in H as (tail & head & -> & _ & Hd & ->).
  apply well_formed_spec. intros q x Hq.
  destruct (decide (q = tail :: head)) as [->|Hne].
  - exists tail, head. split; [done|]. by apply isdir_insert_dir.
  - rewrite lookup_insert_ne in Hq by done.
    destruct (proj1 (well_formed_spec fs) Hwf q x Hq) as (t & h & -> & Hh).
    exists t, h. split; [done|]. by apply isdir_insert_dir.
Qed.

Lemma os_makedirs_well_formed (name : list string) (fs fs' : gmap (list string) node)
    (r : result unit) :
  os_makedirs name fs = (r, fs') → well_formed fs = true → well_formed fs' = true.
Proof.
  revert fs r fs'. induction name as [|tail head IH]; intros fs r fs' H Hwf.
  - by eapply os_mkdir_well_formed.
  - cbn [os_makedirs] in H.
    destruct (negb (exists_ fs head)); [|by eapply os_mkdir_well_formed].
    destruct (os_makedirs head fs) as [[[]|e] fs1] eqn:Hhead.
    + eapply os_mkdir_well_formed; [done|]. by eapply IH.
    + destruct e as [| | | | | | |[]| | |];
        try (injection H as _ <-; by eapply IH).
      eapply os_mkdir_well_formed; [done|]. by eapply IH.
Qed.

Lemma makedirs_os_makedirs (dst : list string) (allow_existing : bool)
    (fs fs' : gmap (list string) node) (r : result unit) :
  makedirs dst allow_existing fs = (r, fs') →
  ∃ r', os_makedirs dst fs = (r', fs')
        ∧ (r' = r ∨ (r = Ok () ∧ r' = Raise (OSError EEXIST) ∧ isdir fs' dst = true)).
Proof.
  unfold makedirs. destruct allow_existing; [|by eexists; eauto].
  destruct (os_makedirs dst fs) as [[[]|e] fs1] eqn:Hm; intros H.
  - injection H as <- <-. eexists. eauto.
  - destruct e as [| | | | | | |[]| | |];
      try (injection H as <- <-; eexists; by eauto).
    destruct (isdir fs1 dst) eqn:Hd; injection H as <- <-; eexists; eauto.
Qed.

(** X13.  [makedirs] makes directories on the way to [dst] and does
    nothing else, whether it returns or raises: every path keeps what it
    held, but for paths that were free, lead to [dst] and are directories
    afterwards.  Files that lie in directories still do.  When it returns,
    [dst] is a directory. *)
Theorem makedirs_makes_ancestors_only (dst : list string) (allow_existing : bool)
    (fs fs' : gmap (list string) node) (r : result unit) :
  makedirs dst allow_existing fs = (r, fs') →
  (∀ q, fs' !! q = fs !! q
        ∨ (q `suffix_of` dst ∧ fs !! q = None ∧ fs' !! q = Some Dir))
  ∧ (well_formed fs = true → well_formed fs' = true)
  ∧ (r = Ok () → isdir fs' dst = true).
Proof.
  intros H. apply makedirs_os_makedirs in H as (r' & Hos & Hr). split_and!.
  - by eapply os_makedirs_frame.
  - by eapply os_makedirs_well_formed.
  - intros ->. destruct Hr as [->|(_ & _ & Hd)]; [|done].
    by eapply os_makedirs_outcome; [|left|].
Qed.

Lemma makedirs_makes_ancestors_only_witness :
  isdir {[ ["a"] := Dir; ["b"; "a"] := Dir; ["c"; "b"; "a"] := Dir;
           ["f"] := File [] ]}%string ["c"; "b"; "a"]%string = true.
Proof.
  apply (makedirs_makes_ancestors_only ["c"; "b"; "a"]%string false
           {[ ["a"] := Dir; ["f"] := File [] ]}%string _ (Ok ()));
    reflexivity.
Defined.

(** X14.  Recursive creation with [allow_existing] can be repeated: once
    [makedirs] has returned, a second call with the flag returns and
    changes nothing, and one without the flag raises [EEXIST] and changes
    nothing. *)
Theorem makedirs_idempotent (dst : list string) (allow_existing : bool)
    (fs fs1 : gmap (list string) node) :
  makedirs dst allow_existing fs = (Ok (), fs1) →
  makedirs dst true fs1 = (Ok (), fs1)
  ∧ makedirs dst false fs1 = (Raise (OSError EEXIST), fs1).
Proof.
  intros H. apply makedirs_os_makedirs in H as (r' & Hos & Hr).
  assert (isdir fs1 dst = true
          ∧ match dst with [] => True | _ :: head => exists_ fs1 head = true end)
    as [Hd Hhead].
  { destruct Hr as [->|(_ & -> & Hd)].
    - destruct (os_makedirs_outcome _ _ _ _ Hos) as (_ & Hd & Hh); auto.
    - destruct (os_makedirs_outcome _ _ _ _ Hos) as (_ & _ & Hh); auto. }
  assert (os_makedirs dst fs1 = (Raise (OSError EEXIST), fs1)) as Hagain.
  { destruct dst as [|tail head].
    - by apply os_mkdir_existing, isdir_is_Some.
    - cbn [os_makedirs]. rewrite Hhead. cbn [negb].
      by apply os_mkdir_existing, isdir_is_Some. }
  unfold makedirs. by rewrite Hagain, Hd.
Qed.

Lemma makedirs_idempotent_witness :
  makedirs ["c"; "b"; "a"]%string true
    {[ ["a"] := Dir; ["b"; "a"] := Dir; ["c"; "b"; "a"] := Dir ]}%string
  = (Ok (), {[ ["a"] := Dir; ["b"; "a"] := Dir; ["c"; "b"; "a"] := Dir ]}%string).
Proof.
  apply (makedirs_idempotent ["c"; "b"; "a"]%string true {[ ["a"] := Dir ]}%string).
  reflexivity.
Defined.

(** ** Removing files *)

Lemma missing_errno_in_dir (tail : string) (head : list string)
    (fs : gmap (list string) node) :
  isdir fs head = true → missing_errno (tail :: head) fs = unlink.ENOENT.
Proof. unfold isdir. simpl. by destruct (stat fs head) as [[|]|]. Qed.

Lemma isdir_delete_file (fs : gmap (list string) node) (p q : list string)
    (content : list ascii) :
  fs !! p = Some (File content) → isdir fs q = true → isdir (delete p fs) q = true.
Proof.
  unfold isdir, stat. intros Hp. destruct q as [|n q]; [done|].
  destruct (decide (p = n :: q)) as [->|Hne].
  - by rewrite Hp.
  - by rewrite lookup_delete_ne.
Qed.

(** X15.  Deletion with [allow_nonexisting] can be repeated.  Where every
    entry lies in a directory: once [remove] with the flag has returned,
    the path is free, nothing else has changed, a second call with the
    flag returns and changes nothing, and one without the flag raises
    [ENOENT].  A directory is never removed: that is [EISDIR], with the
    flag as without it. *)
Theorem remove_idempotent (f : list string) (fs : gmap (list string) node) :
  (∀ fs1,
     well_formed fs = true →
     remove f true fs = (Unlinked, fs1) →
     fs1 = delete f fs ∧ stat fs1 f = None ∧ well_formed fs1 = true
     ∧ remove f true fs1 = (Unlinked, fs1)
     ∧ remove f false fs1 = (UnlinkOSError unlink.ENOENT, fs1))
  ∧ (∀ allow_nonexisting,
       isdir fs f = true →
       remove f allow_nonexisting fs = (UnlinkOSError unlink.EISDIR, fs)).
Proof.
  split.
  - intros fs1 Hwf H. unfold remove, os_remove in H.
    destruct (stat fs f) as [[content|]|] eqn:Hf; [| |].
    + injection H as <-.
      destruct f as [|tail head]; [done|]. simpl in Hf.
      assert (isdir fs head = true) as Hhead
        by (eapply well_formed_head; [done|by eexists]).
      assert (stat (delete (tail :: head) fs) (tail :: head) = None) as Hgone
        by apply lookup_delete_eq.
      assert (missing_errno (tail :: head) (delete (tail :: head) fs) = unlink.ENOENT)
        as Herr by by eapply missing_errno_in_dir, isdir_delete_file.
      split_and!; [done..| | |].
      * apply well_formed_spec. intros q x Hq.
        apply lookup_delete_Some in Hq as [Hne Hq].
        destruct (proj1 (well_formed_spec fs) Hwf q x Hq) as (t & h & -> & Hh).
        exists t, h. split; [done|]. by eapply isdir_delete_file.
      * unfold remove, os_remove. by rewrite Hgone, Herr.
      * unfold remove, os_remove. by rewrite Hgone, Herr.
    + done.
    + destruct (missing_errno f fs) eqn:Herr; try done. injection H as <-.
      destruct f as [|tail head]; [done|]. simpl in Hf.
      split_and!; [by rewrite delete_id|done..| |].
      * unfold remove, os_remove. cbn [stat]. by rewrite Hf, Herr.
      * unfold remove, os_remove. cbn [stat]. by rewrite Hf, Herr.
  - intros allow_nonexisting Hd. unfold remove, os_remove. unfold isdir in Hd.
    destruct (stat fs f) as [[|]|]; try done. by destruct allow_nonexisting.
Qed.

Lemma remove_idempotent_witness :
  remove ["tmp"; "run"]%string true {[ ["run"] := Dir ]}%string
  = (Unlinked, {[ ["run"] := Dir ]}%string).
Proof.
  destruct (remove_idempotent ["tmp"; "run"]%string
              {[ ["run"] := Dir; ["tmp"; "run"] := File (b "x") ]}%string) as [H _].
  destruct (H {[ ["run"] := Dir ]}%string) as (_ & _ & _ & H' & _);
    [reflexivity|reflexivity|exact H'].
Defined.

(** ** Concatenating files *)

Lemma stat_insert_ne (fs : gmap (list string) node) (p q : list string) (x : node) :
  p ≠ q → stat (<[p := x]> fs) q = stat fs q.
Proof. intros Hne. destruct q; [done|]. simpl. by rewrite lookup_insert_ne. Qed.

Lemma open_write_ok (p : list string) (fs : gmap (list string) node) :
  (open_write p fs).1 = Ok () →
  open_write p fs = (Ok (), <[p := File []]> fs) ∧ p ≠ [].
Proof.
  unfold open_write.
  destruct p as [|tail head]; [done|].
  destruct (stat fs (tail :: head)) as [[|]|]; try done.
  by destruct (isdir fs head).
Qed.

Lemma write_file (p : list string) (content data : list ascii)
    (fs : gmap (list string) node) :
  fs !! p = Some (File content) → write p data fs = <[p := File (content ++ data)]> fs.
Proof. intros H. unfold write. by rewrite H. Qed.

Lemma Forall2_stat_insert (fs : gmap (list string) node) (out_path : list string)
    (x : node) (in_paths : list (list string)) (contents : list (list ascii)) :
  out_path ∉ in_paths →
  Forall2 (λ p content, stat fs p = Some (File content)) in_paths contents →
  Forall2 (λ p content, stat (<[out_path := x]> fs) p = Some (File content))
    in_paths contents.
Proof.
  intros Hout Hin. induction Hin as [|p content in_paths contents Hp Hin IH].
  - constructor.
  - apply not_elem_of_cons in Hout as [Hne Hout].
    constructor; [by rewrite stat_insert_ne|by apply IH].
Qed.

Lemma concatenate_loop_ok (out_path : list string) (in_paths : list (list string))
    (contents : list (list ascii)) (fs : gmap (list string) node) (written : list ascii) :
  out_path ∉ in_paths → fs !! out_path = Some (File written) →
  Forall2 (λ p content, stat fs p = Some (File content)) in_paths contents →
  concatenate_loop out_path in_paths fs
  = (Ok (), <[out_path := File (written ++ concat contents)]> fs).
Proof.
  revert contents fs written.
  induction in_paths as [|p in_paths IH]; intros contents fs written Hout Hw Hin.
  - apply Forall2_nil_inv_l in Hin as ->. simpl. by rewrite app_nil_r, insert_id.
  - apply Forall2_cons_inv_l in Hin as (content & contents' & Hp & Hin & ->).
    apply not_elem_of_cons in Hout as [Hne Hout].
    cbn [concatenate_loop]. unfold open_read. rewrite Hp.
    rewrite (write_file _ _ _ _ Hw), (IH contents' _ (written ++ content));
      [|done|by rewrite lookup_insert_eq|].
    + by rewrite insert_insert_eq, <-app_assoc.
    + by apply Forall2_stat_insert.
Qed.

Lemma concatenate_loop_unreadable (out_path : list string)
    (in_paths : list (list string)) (contents : list (list ascii))
    (unreadable : list string) (later : list (list string))
    (fs : gmap (list string) node) (written : list ascii) :
  out_path ∉ in_paths → fs !! out_path = Some (File written) →
  Forall2 (λ p content, stat fs p = Some (File content)) in_paths contents →
  (∀ content, stat fs unreadable ≠ Some (File content)) →
  concatenate_loop out_path (in_paths ++ unreadable :: later) fs
  = (Raise (IOError (filename_of unreadable)),
     <[out_path := File (written ++ concat contents)]> fs).
Proof.
  revert contents fs written.
  induction in_paths as [|p in_paths IH]; intros contents fs written Hout Hw Hin Hbad.
  - apply Forall2_nil_inv_l in Hin as ->. simpl. rewrite app_nil_r, insert_id by done.
    unfold open_read. destruct (stat fs unreadable) as [[content|]|]; try done.
    by destruct (Hbad content).
  - apply Forall2_cons_inv_l in Hin as (content & contents' & Hp & Hin & ->).
    apply not_elem_of_cons in Hout as [Hne Hout].
    cbn [app concatenate_loop]. unfold open_read at 1. rewrite Hp.
    rewrite (write_file _ _ _ _ Hw), (IH contents' _ (written ++ content));
      [|done|by rewrite lookup_insert_eq|by apply Forall2_stat_insert|].
    + by rewrite insert_insert_eq, <-app_assoc.
    + intros c. destruct (decide (out_path = unreadable)) as [<-|Hne'].
      * destruct out_path; [done|]. by destruct (Hbad written).
      * by rewrite stat_insert_ne.
Qed.

(** X16.  [concatenate_files] writes the inputs one after the other: when
    the output can be opened for writing, is not among the inputs, and
    every input is a regular file, it returns, the output holds the
    contents of the inputs in the order of the list (nothing for no
    input), and no other path has changed. *)
Theorem concatenate_files_concat (out_path : list string)
    (in_paths : list (list string)) (contents : list (list ascii))
    (fs : gmap (list string) node) :
  (open_write out_path fs).1 = Ok () →
  out_path ∉ in_paths →
  Forall2 (λ p content, stat fs p = Some (File content)) in_paths contents →
  concatenate_files out_path in_paths fs
  = (Ok (), <[out_path := File (concat contents)]> fs).
Proof.
  intros [Hopen Hne]%open_write_ok Hout Hin. unfold concatenate_files. rewrite Hopen.
  rewrite (concatenate_loop_ok _ _ contents _ []);
    [|done|by rewrite lookup_insert_eq|by apply Forall2_stat_insert].
  by rewrite insert_insert_eq.
Qed.

Lemma concatenate_files_concat_witness :
  concatenate_files ["all"; "run"]%string [ ["a"; "run"]; ["b"; "run"] ]%string
    {[ ["run"] := Dir; ["a"; "run"] := File (b "one"); ["b"; "run"] := File (b "two");
       ["all"; "run"] := File (b "old") ]}%string
  = (Ok (),
     <[ ["all"; "run"]%string := File (concat [b "one"; b "two"]) ]>
       {[ ["run"] := Dir; ["a"; "run"] := File (b "one"); ["b"; "run"] := File (b "two");
          ["all"; "run"] := File (b "old") ]}%string).
Proof.
  apply concatenate_files_concat.
  - reflexivity.
  - compute_done.
  - repeat constructor.
Defined.

(** X17.  A failed concatenation leaves a part of the output behind: at
    the first input that is no regular file, [concatenate_files] raises
    the [IOError] of opening it, and the output holds the contents of the
    inputs before that one, and none of a later one. *)
Theorem concatenate_files_partial (out_path : list string)
    (in_paths : list (list string)) (contents : list (list ascii))
    (unreadable : list string) (later : list (list string))
    (fs : gmap (list string) node) :
  (open_write out_path fs).1 = Ok () →
  out_path ∉ in_paths → out_path ≠ unreadable →
  Forall2 (λ p content, stat fs p = Some (File content)) in_paths contents →
  (∀ content, stat fs unreadable ≠ Some (File content)) →
  concatenate_files out_path (in_paths ++ unreadable :: later) fs
  = (Raise (IOError (filename_of unreadable)),
     <[out_path := File (concat contents)]> fs).
Proof.
  intros [Hopen Hne]%open_write_ok Hout Hbad Hin Hun.
  unfold concatenate_files. rewrite Hopen.
  rewrite (concatenate_loop_unreadable _ _ contents _ _ _ []);
    [|done|by rewrite lookup_insert_eq|by apply Forall2_stat_insert|].
  - by rewrite insert_insert_eq.
  - intros c. by rewrite stat_insert_ne.
Qed.

Lemma concatenate_files_partial_witness :
  concatenate_files ["all"]%string [ ["a"]; ["missing"]; ["b"] ]%string
    {[ ["a"] := File (b "one"); ["b"] := File (b "two") ]}%string
  = (Raise (IOError "/missing"),
     <[ ["all"]%string := File (concat [b "one"]) ]>
       {[ ["a"] := File (b "one"); ["b"] := File (b "two") ]}%string).
Proof.
  apply (concatenate_files_partial ["all"]%string [ ["a"] ]%string [b "one"]
           ["missing"]%string [ ["b"] ]%string).
  - reflexivity.
  - compute_done.
  - done.
  - repeat constructor.
  - intros content. by vm_compute.
Defined.

(** ** Concatenating files with a header line *)

Lemma readline_app (s : list ascii) : (readline s).1 ++ (readline s).2 = s.
Proof.
  induction s as [|c s IH]; [done|]. cbn [readline].
  destruct (Ascii.eqb c "010"); [done|].
  destruct (readline s) as [line rest]. simpl in *. by rewrite IH.
Qed.

Lemma headered_loop_ok (out_path : list string) (header : list ascii)
    (in_paths : list (list string)) (contents : list (list ascii))
    (fs : gmap (list string) node) (written : list ascii) :
  out_path ∉ in_paths → fs !! out_path = Some (File written) →
  Forall2 (λ p content, stat fs p = Some (File content)) in_paths contents →
  Forall (λ content, (readline content).1 = header) contents →
  headered_loop out_path header in_paths fs
  = (Ok (), <[out_path := File (written
                                ++ concat ((λ content, (readline content).2) <$> contents))]> fs).
Proof.
  revert contents fs written.
  induction in_paths as [|p in_paths IH]; intros contents fs written Hout Hw Hin Hhd.
  - apply Forall2_nil_inv_l in Hin as ->. simpl. by rewrite app_nil_r, insert_id.
  - apply Forall2_cons_inv_l in Hin as (content & contents' & Hp & Hin & ->).
    apply not_elem_of_cons in Hout as [Hne Hout].
    apply Forall_cons in Hhd as [Hhd1 Hhd].
    cbn [headered_loop]. unfold open_read. rewrite Hp.
    destruct (readline content) as [this_header rest] eqn:Hrl. simpl in Hhd1.
    rewrite bool_decide_eq_true_2 by done.
    rewrite (write_file _ _ _ _ Hw), (IH contents' _ (written ++ rest));
      [|done|by rewrite lookup_insert_eq|by apply Forall2_stat_insert|done].
    rewrite insert_insert_eq, fmap_cons, Hrl. simpl. by rewrite <-app_assoc.
Qed.

Lemma headered_loop_mismatch (out_path : list string) (header : list ascii)
    (in_paths : list (list string)) (contents : list (list ascii))
    (other : list string) (other_content : list ascii) (later : list (list string))
    (fs : gmap (list string) node) (written : list ascii) :
  out_path ∉ in_paths → fs !! out_path = Some (File written) →
  Forall2 (λ p content, stat fs p = Some (File content)) in_paths contents →
  Forall (λ content, (readline content).1 = header) contents →
  out_path ≠ other → stat fs other = Some (File other_content) →
  (readline other_content).1 ≠ header →
  headered_loop out_path header (in_paths ++ other :: later) fs
  = (Raise AssertionError,
     <[out_path := File (written
                         ++ concat ((λ content, (readline content).2) <$> contents))]> fs).
Proof.
  revert contents fs written.
  induction in_paths as [|p in_paths IH];
    intros contents fs written Hout Hw Hin Hhd Hne' Hother Hdiff.
  - apply Forall2_nil_inv_l in Hin as ->. simpl. rewrite app_nil_r, insert_id by done.
    unfold open_read. rewrite Hother.
    destruct (readline other_content) as [this_header rest]. simpl in Hdiff.
    by rewrite bool_decide_eq_false_2.
  - apply Forall2_cons_inv_l in Hin as (content & contents' & Hp & Hin & ->).
    apply not_elem_of_cons in Hout as [Hne Hout].
    apply Forall_cons in Hhd as [Hhd1 Hhd].
    cbn [app headered_loop]. unfold open_read at 1. rewrite Hp.
    destruct (readline content) as [this_header rest] eqn:Hrl. simpl in Hhd1.
    rewrite bool_decide_eq_true_2 by done.
    rewrite (write_file _ _ _ _ Hw), (IH contents' _ (written ++ rest));
      [|done|by rewrite lookup_insert_eq|by apply Forall2_stat_insert|done|done
       |by rewrite stat_insert_ne|done].
    rewrite insert_insert_eq, fmap_cons, Hrl. simpl. by rewrite <-app_assoc.
Qed.

Lemma concatenate_headered_first (out_path first : list string)
    (in_paths : list (list string)) (content : list ascii)
    (fs : gmap (list string) node) :
  (open_write out_path fs).1 = Ok () → out_path ≠ first →
  stat fs first = Some (File content) →
  concatenate_headered_files out_path (first :: in_paths) fs
  = headered_loop out_path (readline content).1 in_paths
      (<[out_path := File content]> fs).
Proof.
  intros [Hopen Hne]%open_write_ok Hfirst Hc.
  unfold concatenate_headered_files. rewrite Hopen.
  unfold open_read. rewrite stat_insert_ne, Hc by done.
  pose proof (readline_app content) as Happ.
  destruct (readline content) as [header rest]. simpl in Happ. simpl.
  rewrite (write_file _ [] header) by by rewrite lookup_insert_eq.
  rewrite (write_file _ header rest) by by rewrite lookup_insert_eq.
  by rewrite !insert_insert_eq, Happ.
Qed.

(** X18.  [concatenate_headered_files] keeps one header: when the output
    can be opened for writing and is not among the inputs, every input is
    a regular file, and the first line of every later input is the first
    line of the first, it returns, the output holds the first input
    followed by what comes after the first line in each of the others, in
    the order of the list, and no other path has changed. *)
Theorem concatenate_headered_files_concat (out_path first : list string)
    (in_paths : list (list string)) (content : list ascii)
    (contents : list (list ascii)) (fs : gmap (list string) node) :
  (open_write out_path fs).1 = Ok () →
  out_path ∉ first :: in_paths →
  stat fs first = Some (File content) →
  Forall2 (λ p content, stat fs p = Some (File content)) in_paths contents →
  Forall (λ later, (readline later).1 = (readline content).1) contents →
  concatenate_headered_files out_path (first :: in_paths) fs
  = (Ok (), <[out_path := File (content
                                ++ concat ((λ later, (readline later).2) <$> contents))]> fs).
Proof.
  intros Hopen [Hne Hout]%not_elem_of_cons Hc Hin Hhd.
  rewrite (concatenate_headered_first _ _ _ content) by done.
  rewrite (headered_loop_ok _ _ _ contents _ content);
    [|done|by rewrite lookup_insert_eq|by apply Forall2_stat_insert|done].
  by rewrite insert_insert_eq.
Qed.

Lemma concatenate_headered_files_concat_witness :
  concatenate_headered_files ["all"]%string [ ["a"]; ["b"] ]%string
    {[ ["a"] := File ["i"; "d"; "010"; "1"; "010"]%char;
       ["b"] := File ["i"; "d"; "010"; "2"; "010"]%char ]}%string
  = (Ok (),
     <[ ["all"]%string :=
          File (["i"; "d"; "010"; "1"; "010"]%char
                ++ concat ((λ later, (readline later).2)
                             <$> [ ["i"; "d"; "010"; "2"; "010"]%char ])) ]>
       {[ ["a"] := File ["i"; "d"; "010"; "1"; "010"]%char;
          ["b"] := File ["i"; "d"; "010"; "2"; "010"]%char ]}%string).
Proof.
  apply concatenate_headered_files_concat.
  - reflexivity.
  - compute_done.
  - reflexivity.
  - repeat constructor.
  - by repeat constructor.
Defined.

(** X19.  A header that differs stops the concatenation with an
    [AssertionError] and leaves a part of the output behind: the first
    input, and what comes after the first line in the inputs before the
    one that differs.  An input without bytes differs from every first
    input that has some. *)
Theorem concatenate_headered_files_mismatch (out_path first : list string)
    (in_paths : list (list string)) (content : list ascii)
    (contents : list (list ascii)) (other : list string) (other_content : list ascii)
    (later : list (list string)) (fs : gmap (list string) node) :
  (open_write out_path fs).1 = Ok () →
  out_path ∉ first :: in_paths → out_path ≠ other →
  stat fs first = Some (File content) →
  Forall2 (λ p content, stat fs p = Some (File content)) in_paths contents →
  Forall (λ later, (readline later).1 = (readline content).1) contents →
  stat fs other = Some (File other_content) →
  (readline other_content).1 ≠ (readline content).1 ∨ (other_content = [] ∧ content ≠ []) →
  concatenate_headered_files out_path (first :: in_paths ++ other :: later) fs
  = (Raise AssertionError,
     <[out_path := File (content
                         ++ concat ((λ later, (readline later).2) <$> contents))]> fs).
Proof.
  intros Hopen [Hne Hout]%not_elem_of_cons Hne' Hc Hin Hhd Hother Hdiff.
  rewrite (concatenate_headered_first _ _ _ content) by done.
  rewrite (headered_loop_mismatch _ _ _ contents _ other_content _ _ content);
    [|done|by rewrite lookup_insert_eq|by apply Forall2_stat_insert|done|done
     |by rewrite stat_insert_ne|].
  - by rewrite insert_insert_eq.
  - destruct Hdiff as [Hdiff|[-> Hdiff]]; [done|].
    destruct content as [|c content]; [done|]. cbn [readline].
    destruct (Ascii.eqb c "010"); [done|]. by destruct (readline content).
Qed.

Lemma concatenate_headered_files_mismatch_witness :
  concatenate_headered_files ["all"]%string [ ["a"]; ["empty"]; ["b"] ]%string
    {[ ["a"] := File ["i"; "d"; "010"; "1"; "010"]%char;
       ["empty"] := File [];
       ["b"] := File ["i"; "d"; "010"; "2"; "010"]%char ]}%string
  = (Raise AssertionError,
     <[ ["all"]%string :=
          File (["i"; "d"; "010"; "1"; "010"]%char
                ++ concat ((λ later, (readline later).2) <$> [])) ]>
       {[ ["a"] := File ["i"; "d"; "010"; "1"; "010"]%char;
          ["empty"] := File [];
          ["b"] := File ["i"; "d"; "010"; "2"; "010"]%char ]}%string).
Proof.
  apply (concatenate_headered_files_mismatch ["all"]%string ["a"]%string []
           _ [] ["empty"]%string [] [ ["b"] ]%string).
  - reflexivity.
  - compute_done.
  - done.
  - reflexivity.
  - constructor.
  - constructor.
  - reflexivity.
  - right. done.
Defined.

(** ** Hashing a file *)

Section DigestProperties.

Variable sha1_state : Type.
Variable sha1 : sha1_state.
Variable update : sha1_state → list ascii → sha1_state.
Variable hexdigest : sha1_state → string.

(** What hashlib says of [update]: repeated calls are one call with the
    concatenation of the arguments. *)
Hypothesis update_app :
  ∀ digest chunk chunk', update (update digest chunk) chunk' = update digest (chunk ++ chunk').
Hypothesis update_nil : ∀ digest, update digest [] = digest.

Lemma update_chunks_blocks (reads : nat) (block_size_bytes : Z) (f : list ascii)
    (digest : sha1_state) :
  (0 < block_size_bytes)%Z → (length f < reads)%nat →
  update_chunks _ update reads block_size_bytes f digest = update digest f.
Proof.
  intros Hn. revert f digest.
  induction reads as [|reads IH]; intros f digest Hlen; [lia|].
  cbn [update_chunks]. unfold read.
  destruct (Z.ltb_spec block_size_bytes 0) as [?|_]; [lia|].
  destruct (Z.to_nat block_size_bytes) as [|k] eqn:Hk; [lia|].
  destruct f as [|c f]; [by rewrite update_nil|].
  cbn [take drop]. rewrite IH, update_app.
  - by rewrite <-app_comm_cons, (take_drop k f).
  - rewrite length_drop. simpl in Hlen. lia.
Qed.

Lemma update_chunks_whole (reads : nat) (block_size_bytes : Z) (f : list ascii)
    (digest : sha1_state) :
  (block_size_bytes < 0)%Z → (length f < reads)%nat →
  update_chunks _ update reads block_size_bytes f digest = update digest f.
Proof.
  intros Hn Hlen. destruct reads as [|reads]; [lia|].
  cbn [update_chunks]. unfold read at 1.
  destruct (Z.ltb_spec block_size_bytes 0) as [_|?]; [|lia].
  destruct f as [|c f]; [by rewrite update_nil|].
  destruct reads as [|reads]; [simpl in Hlen; lia|].
  cbn [update_chunks]. unfold read.
  by destruct (Z.ltb_spec block_size_bytes 0) as [_|?]; [|lia].
Qed.

(** X20.  The block size does not show in the hash, unless it is 0: for a
    regular file and every block size but 0, [compute_hash_of_file]
    returns the digest of the bytes of the file (a negative size reads
    them in one piece), so two such sizes give the same hash; with the
    size 0 the first read is empty, and it returns the digest of no bytes
    for every file.  The loop ends by itself: more reads allowed give the
    same state.  A path that is no regular file is the [IOError] of
    opening it. *)
Theorem compute_hash_block_size (filename : list string) (block_size_bytes : Z)
    (fs : gmap (list string) node) :
  match stat fs filename with
  | Some (File content) =>
    compute_hash_of_file _ sha1 update hexdigest filename block_size_bytes fs
    = Ok (hexdigest (if (block_size_bytes =? 0)%Z then sha1 else update sha1 content))
    ∧ ∀ more,
        update_chunks _ update (S (length content) + more) block_size_bytes content sha1
        = update_chunks _ update (S (length content)) block_size_bytes content sha1
  | _ =>
    compute_hash_of_file _ sha1 update hexdigest filename block_size_bytes fs
    = Raise (IOError (filename_of filename))
  end.
Proof.
  unfold compute_hash_of_file, open_read.
  destruct (stat fs filename) as [[content|]|]; [|done..].
  assert (∀ reads, (length content < reads)%nat →
            update_chunks _ update reads block_size_bytes content sha1
            = if (block_size_bytes =? 0)%Z then sha1 else update sha1 content) as H.
  { intros reads Hlen.
    destruct (Z.eqb_spec block_size_bytes 0) as [->|Hne].
    - destruct reads; [done|]. by destruct content.
    - destruct (Z.lt_ge_cases block_size_bytes 0).
      + by apply update_chunks_whole.
      + apply update_chunks_blocks; [lia|done]. }
  split.
  - by rewrite H by lia.
  - intros more. by rewrite !H by lia.
Qed.

End DigestProperties.

Lemma compute_hash_block_size_witness :
  compute_hash_of_file _ [] identity_update string_of_list_ascii ["f"]%string 2
    {[ ["f"]%string := File (b "abcde") ]}
  = Ok "abcde"%string.
Proof.
  pose proof (compute_hash_block_size (list ascii) [] identity_update
                string_of_list_ascii
                (λ digest chunk chunk', eq_sym (app_assoc digest chunk chunk'))
                (λ digest, app_nil_r digest)
                ["f"]%string 2 {[ ["f"]%string := File (b "abcde") ]}) as H.
  exact (proj1 H).
Defined.

(** ** Copying a directory of files *)

Lemma NoDup_omap_names {A} (src : list string) (l : list (list string * A)) :
  NoDup l.*1 →
  NoDup (omap (λ kv, match kv.1 with
                     | name :: head => if bool_decide (head = src) then Some name else None
                     | [] => None
                     end) l).
Proof.
  induction l as [|[k v] l IH]; intros Hnd; [constructor|].
  rewrite fmap_cons in Hnd. apply NoDup_cons in Hnd as [Hk Hnd].
  cbn [omap list_omap]. simpl.
  destruct k as [|name head]; [by apply IH|].
  destruct (bool_decide_reflect (head = src)) as [->|Hne]; [|by apply IH].
  apply NoDup_cons. split; [|by apply IH].
  intros ([k' v'] & Hin & Hg)%list_elem_of_omap. simpl in Hg.
  destruct k' as [|name' head']; [done|].
  destruct (bool_decide_reflect (head' = src)) as [->|Hne']; [|done].
  injection Hg as ->. apply Hk, list_elem_of_fmap. by exists (name :: src, v').
Qed.

Lemma os_listdir_names (fs : gmap (list string) node) (src : list string)
    (names : list string) :
  os_listdir src fs = Ok names →
  NoDup names ∧ ∀ name, name ∈ names ↔ is_Some (fs !! (name :: src)).
Proof.
  unfold os_listdir. destruct (stat fs src) as [[|]|]; try done. intros [= <-]. split.
  - apply NoDup_omap_names, NoDup_fst_map_to_list.
  - intros name. rewrite list_elem_of_omap. split.
    + intros ([k v] & Hin%elem_of_map_to_list & Hg). simpl in Hg.
      destruct k as [|name' head']; [done|].
      destruct (bool_decide_reflect (head' = src)) as [->|Hne']; [|done].
      injection Hg as ->. by eexists.
    + intros [x Hx]. exists (name :: src, x). split; [by apply elem_of_map_to_list|].
      simpl. by rewrite bool_decide_eq_true_2.
Qed.

Lemma flat_file (fs : gmap (list string) node) (src : list string) (name : string)
    (x : node) :
  flat src fs = true → fs !! (name :: src) = Some x → ∃ content, x = File content.
Proof.
  unfold flat. rewrite forallb_forall. intros H Hx.
  specialize (H (name :: src, x)). simpl in H.
  destruct x as [content|]; [by eexists|].
  rewrite bool_decide_eq_true_2 in H by done.
  discriminate H. by apply list_elem_of_In, elem_of_map_to_list.
Qed.

Lemma copytree_names_flat
    (Popen : string → list (list string) → gmap (list string) node
             → result process * gmap (list string) node)
    (rec : list string → list string → gmap (list string) node
           → result unit * gmap (list string) node)
    (src dst : list string) (names : list string) (fs : gmap (list string) node) :
  copies_files Popen →
  NoDup names → isdir fs dst = true → src ≠ dst →
  (∀ name, name ∈ names →
     (∃ content, fs !! (name :: src) = Some (File content))
     ∧ fs !! (name :: dst) = None) →
  ∃ fs', copytree_names Popen rec src dst names fs = (Ok (), fs')
         ∧ (∀ name, name ∈ names → fs' !! (name :: dst) = fs !! (name :: src))
         ∧ (∀ q, (∀ name, name ∈ names → q ≠ name :: dst) → fs' !! q = fs !! q).
Proof.
  intros Hcp Hnd Hdst Hne. revert fs Hdst.
  induction names as [|name names IH]; intros fs Hdst Hfiles.
  - exists fs. split_and!; [done| |done]. by intros name Hin%elem_of_nil.
  - apply NoDup_cons in Hnd as [Hname Hnd].
    destruct (Hfiles name) as [[content Hsrc] Hfree]; [by left|].
    destruct (Hcp (name :: src) name dst content fs) as (p & HP & Hrc); [done..|].
    cbn [copytree_names]. unfold isdir at 1. cbn [stat]. rewrite Hsrc.
    unfold copy, run_command_safely. rewrite HP, Hrc.
    rewrite bool_decide_eq_false_2 by (intros H; by apply H).
    destruct (IH Hnd (<[name :: dst := File content]> fs)) as (fs' & Hloop & Hcopied & Hframe).
    { apply isdir_insert_file; [|done]. unfold isdir. simpl. by rewrite Hfree. }
    { intros n Hn. destruct (Hfiles n) as [[c Hc] Hf]; [by right|].
      rewrite !lookup_insert_ne by congruence. eauto. }
    exists fs'. split_and!; [done| |].
    + intros n [->|Hn]%elem_of_cons.
      * rewrite Hframe, lookup_insert_eq; [done|]. congruence.
      * rewrite (Hcopied n Hn), lookup_insert_ne; [done|]. congruence.
    + intros q Hq. rewrite Hframe, lookup_insert_ne; [done| |].
      * intros <-. by apply (Hq name); [left|].
      * intros n Hn. apply Hq. by right.
Qed.

(** X21.  [copytree] copies a directory of files.  Where every entry lies
    in a directory, cp(1) copies a file to a free path, [src] is a
    directory that holds regular files only, and [dst] is a free path in
    a directory other than [src]: [copytree] returns, with either value
    of the flag and any recursion depth but 0; [dst] is a directory that
    holds under each name what [src] holds under it; and no other path
    has changed. *)
Theorem copytree_flat
    (Popen : string → list (list string) → gmap (list string) node
             → result process * gmap (list string) node)
    (depth : nat) (src : list string) (tail : string) (head : list string)
    (allow_existing : bool) (fs : gmap (list string) node) :
  copies_files Popen →
  well_formed fs = true → isdir fs src = true → flat src fs = true →
  stat fs (tail :: head) = None → isdir fs head = true → head ≠ src →
  ∃ fs', copytree Popen (S depth) src (tail :: head) allow_existing fs = (Ok (), fs')
         ∧ isdir fs' (tail :: head) = true
         ∧ (∀ name, fs' !! (name :: tail :: head) = fs !! (name :: src))
         ∧ (∀ q, q ≠ tail :: head → (∀ name, q ≠ name :: tail :: head) →
                 fs' !! q = fs !! q).
Proof.
  intros Hcp Hwf Hsrc Hflat Hfree Hhead Hne.
  assert (src ≠ tail :: head) as Hsd.
  { intros ->. unfold isdir in Hsrc. by rewrite Hfree in Hsrc. }
  assert (makedirs (tail :: head) allow_existing fs
          = (Ok (), <[tail :: head := Dir]> fs)) as Hmk.
  { assert (os_makedirs (tail :: head) fs = (Ok (), <[tail :: head := Dir]> fs)) as Hos.
    { cbn [os_makedirs]. rewrite (isdir_exists _ _ Hhead). cbn [negb].
      unfold os_mkdir. rewrite Hfree. unfold isdir in Hhead.
      by destruct (stat fs head) as [[|]|]. }
    unfold makedirs. rewrite Hos. by destruct allow_existing. }
  cbn [copytree]. rewrite Hmk.
  assert (isdir (<[tail :: head := Dir]> fs) src = true) as Hsrc1
    by by apply isdir_insert_dir.
  destruct (os_listdir src (<[tail :: head := Dir]> fs)) as [names|e] eqn:Hls.
  2: { unfold os_listdir, isdir in *.
       by destruct (stat (<[tail :: head := Dir]> fs) src) as [[|]|]. }
  apply os_listdir_names in Hls as [Hnd Hnames].
  assert (∀ name, fs !! (name :: tail :: head) = None) as Hchildren.
  { intros name. destruct (fs !! (name :: tail :: head)) as [x|] eqn:Hx; [|done].
    assert (isdir fs (tail :: head) = true) as Hd
      by (eapply well_formed_head; [done|by eexists]).
    unfold isdir in Hd. by rewrite Hfree in Hd. }
  destruct (copytree_names_flat Popen
              (λ srcname dstname, copytree Popen depth srcname dstname false)
              src (tail :: head) names (<[tail :: head := Dir]> fs))
    as (fs' & Hloop & Hcopied & Hframe); [done|done| |done| |].
  { unfold isdir. simpl. by rewrite lookup_insert_eq. }
  { intros name [x Hx]%Hnames.
    rewrite lookup_insert_ne in Hx by congruence.
    destruct (flat_file _ _ _ _ Hflat Hx) as [content ->].
    split.
    - exists content. rewrite lookup_insert_ne; [done|]. congruence.
    - rewrite lookup_insert_ne; [done|].
      intros Heq. apply (f_equal length) in Heq. simpl in Heq. lia. }
  exists fs'. split_and!; [done| | |].
  - unfold isdir. simpl. rewrite Hframe, lookup_insert_eq; [done|].
    intros name _ Heq. apply (f_equal length) in Heq. simpl in Heq. lia.
  - intros name. destruct (decide (name ∈ names)) as [Hin|Hout].
    + rewrite (Hcopied _ Hin), lookup_insert_ne; [done|]. congruence.
    + rewrite Hframe, lookup_insert_ne, Hchildren.
      * destruct (fs !! (name :: src)) as [x|] eqn:Hx; [|done].
        destruct Hout. apply Hnames. rewrite lookup_insert_ne by congruence.
        by eexists.
      * intros Heq. apply (f_equal length) in Heq. simpl in Heq. lia.
      * intros n Hn [= -> ]. done.
  - intros q Hq Hq'. rewrite Hframe, lookup_insert_ne; [done..|].
    intros name _. apply Hq'.
Qed.

Lemma Popen_cp_copies : copies_files Popen_cp.
Proof.
  intros src tail head content fs Hsrc Hfree Hhead.
  unfold Popen_cp. rewrite bool_decide_eq_true_2 by done.
  rewrite Hsrc, Hfree. destruct src as [|name src']; [done|].
  unfold cp_write. rewrite Hfree. unfold isdir in Hhead.
  destruct (stat fs head) as [[|]|]; try done. by eexists.
Qed.

Lemma copytree_flat_witness :
  ∃ fs', copytree Popen_cp 1 ["a"]%string ["d"]%string false
           {[ ["a"] := Dir; ["x"; "a"] := File (b "1"); ["y"; "a"] := File (b "2") ]}%string
         = (Ok (), fs')
         ∧ isdir fs' ["d"]%string = true
         ∧ (∀ name, fs' !! (name :: ["d"]%string)
                    = ({[ ["a"] := Dir; ["x"; "a"] := File (b "1");
                          ["y"; "a"] := File (b "2") ]}%string
                         : gmap (list string) node) !! (name :: ["a"]%string))
         ∧ (∀ q, q ≠ ["d"]%string → (∀ name, q ≠ name :: ["d"]%string) →
                 fs' !! q
                 = ({[ ["a"] := Dir; ["x"; "a"] := File (b "1");
                       ["y"; "a"] := File (b "2") ]}%string
                      : gmap (list string) node) !! q).
Proof.
  apply (copytree_flat Popen_cp 0 ["a"]%string "d"%string [] false);
    [apply Popen_cp_copies|reflexivity..|done].
Defined.



